(** * cleanup_picks.py: the rewrite sequence over the text buffer [content]

    The script reads one file into the string [content], applies seventeen
    substitutions to it (eight numbered groups, lines 10-67), writes the
    result back and prints a summary.  This development embeds the string
    operations the script calls ([str.replace], [re.sub]) for the fragment of
    the pattern language the script uses, then the script itself, and states
    the properties of the rewrite sequence over that embedding.

    Python semantics followed: CPython 3 (the script's interpreter line is
    [python3]), module [re] as of 3.7 and later: [re.sub] compiles the
    pattern, then the replacement template (when the replacement contains a
    backslash), and only then searches the string. *)

From Stdlib Require Import Ascii String.
From Stdlib Require Import List NArith Bool Arith Lia.
Import ListNotations.

(** ** Python strings *)

Module Py.

(** A [str] is a sequence of code points. *)
Definition char := N.
Definition str := list char.

Definition ord (a : ascii) : char := N_of_ascii a.

Fixpoint codes (s : string) : str :=
  match s with
  | EmptyString => []
  | String a s' => ord a :: codes s'
  end.

Definition NL : char := 10%N.
Definition DQUOTE : char := 34%N.
Definition BACKSLASH : char := 92%N.

Definition chr_eqb (a b : char) : bool := N.eqb a b.

(** [s.startswith(p)] *)
Fixpoint starts_with (p s : str) : bool :=
  match p, s with
  | [], _ => true
  | _ :: _, [] => false
  | a :: p', b :: s' => chr_eqb a b && starts_with p' s'
  end.

(** [s.find(p) != -1], i.e. [p in s] *)
Fixpoint occurs (p s : str) : bool :=
  starts_with p s ||
  match s with
  | [] => false
  | _ :: s' => occurs p s'
  end.

(** [s.find(p)], with [None] for -1 *)
Fixpoint find (p s : str) : option nat :=
  if starts_with p s then Some 0
  else
    match s with
    | [] => None
    | _ :: s' => option_map S (find p s')
    end.

(** The scan of [str.replace] for a non-empty [old]: left to right, every
    occurrence that does not overlap the previous one is replaced.  [skip]
    counts the characters of the current occurrence still to be dropped. *)
Fixpoint replace_scan (old new : str) (skip : nat) (s : str) : str :=
  match s with
  | [] => []
  | c :: s' =>
      match skip with
      | S k => replace_scan old new k s'
      | O =>
          if starts_with old s
          then new ++ replace_scan old new (length old - 1) s'
          else c :: replace_scan old new 0 s'
      end
  end.

(** [s.replace(old, new)] (no count argument: all occurrences).  An empty
    [old] matches before every character and at the end. *)
Definition str_replace (old new s : str) : str :=
  match old with
  | [] => new ++ flat_map (fun c => c :: new) s
  | _ :: _ => replace_scan old new 0 s
  end.

(** What [f.read()] gives for a file opened with [open(path, 'r')]: the
    decoded text with every line ending, [\r\n] or [\r] alone, turned into
    [\n] (universal newlines). *)
Definition CR : char := 13%N.

Fixpoint universal_newlines (s : str) : str :=
  match s with
  | [] => []
  | c :: s' =>
      if chr_eqb c CR then
        NL :: match s' with
              | [] => []
              | d :: s'' =>
                  if chr_eqb d NL then universal_newlines s''
                  else universal_newlines s'
              end
      else c :: universal_newlines s'
  end.

End Py.

Import Py.

(** ** The module [re], for the fragment the script uses *)

Module Re.

Inductive error : Type :=
| BadEscape (c : char)        (* "bad escape \c" *)
| BadEscapeEnd                (* "bad escape (end of pattern)" *)
| NothingToRepeat
| MultipleRepeat
| UnterminatedSet
| OutsideFragment (c : char). (* not modelled: nothing is stated of such input *)

Inductive result (A : Type) : Type :=
| Ok (a : A)
| Err (e : error).
Arguments Ok {A} a.
Arguments Err {A} e.

Definition bind {A B} (r : result A) (f : A -> result B) : result B :=
  match r with
  | Ok a => f a
  | Err e => Err e
  end.

(** [Py_UNICODE_ISSPACE]: what [\s] matches in a [str] pattern. *)
Definition is_space (c : char) : bool :=
  ((9 <=? c) && (c <=? 13) || (28 <=? c) && (c <=? 32) ||
   (c =? 133) || (c =? 160) || (c =? 5760) ||
   (8192 <=? c) && (c <=? 8202) || (c =? 8232) || (c =? 8233) ||
   (c =? 8239) || (c =? 8287) || (c =? 12288))%N.

Definition is_ascii_letter (c : char) : bool :=
  ((65 <=? c) && (c <=? 90) || (97 <=? c) && (c <=? 122))%N.

Definition is_digit (c : char) : bool := ((48 <=? c) && (c <=? 57))%N.

Inductive category := CATEGORY_SPACE | CATEGORY_NOT_SPACE.

Inductive set_item :=
| SLiteral (c : char)
| SCategory (k : category).

(** One-character matchers. *)
Inductive atom :=
| LITERAL (c : char)
| ANY                      (* [.] : anything but a newline *)
| ANY_ALL                  (* [.] under DOTALL *)
| IN (items : list set_item).

(** A parsed pattern is a sequence of items; [MAX_REPEAT] is [a*] and
    [MIN_REPEAT] is [a*?]. *)
Inductive node :=
| ONE (a : atom)
| MAX_REPEAT (a : atom)
| MIN_REPEAT (a : atom).

Definition pattern := list node.

Inductive flags := NOFLAGS | DOTALL.

(** *** Parsing a pattern ([_parser._parse], [_escape], [_class_escape]) *)

(** [ESCAPES]: the character escapes. *)
Definition char_escape (d : char) : option char :=
  if chr_eqb d (ord "a") then Some 7%N
  else if chr_eqb d (ord "b") then Some 8%N
  else if chr_eqb d (ord "f") then Some 12%N
  else if chr_eqb d (ord "n") then Some 10%N
  else if chr_eqb d (ord "r") then Some 13%N
  else if chr_eqb d (ord "t") then Some 9%N
  else if chr_eqb d (ord "v") then Some 11%N
  else if chr_eqb d BACKSLASH then Some BACKSLASH
  else None.

(** Escapes Python accepts that this model leaves out: [\A \B \Z \d \D \w
    \W \x \u \U \N] and the digits. *)
Definition unmodelled_escape (d : char) : bool :=
  is_digit d ||
  existsb (chr_eqb d)
    (codes "ABZdDwWxuUN").

(** [_escape]: an escape outside a character set.  [\b] is a word boundary
    there (a category), so it is looked up before [ESCAPES]. *)
Definition escape (d : char) : result atom :=
  if chr_eqb d (ord "s") then Ok (IN [SCategory CATEGORY_SPACE])
  else if chr_eqb d (ord "S") then Ok (IN [SCategory CATEGORY_NOT_SPACE])
  else if chr_eqb d (ord "b") || unmodelled_escape d then Err (OutsideFragment d)
  else match char_escape d with
       | Some c => Ok (LITERAL c)
       | None => if is_ascii_letter d then Err (BadEscape d) else Ok (LITERAL d)
       end.

(** [_class_escape]: an escape inside a character set. *)
Definition class_escape (d : char) : result set_item :=
  match char_escape d with
  | Some c => Ok (SLiteral c)
  | None =>
      if chr_eqb d (ord "s") then Ok (SCategory CATEGORY_SPACE)
      else if chr_eqb d (ord "S") then Ok (SCategory CATEGORY_NOT_SPACE)
      else if unmodelled_escape d then Err (OutsideFragment d)
      else if is_ascii_letter d then Err (BadEscape d)
      else Ok (SLiteral d)
  end.

(** Special characters whose constructs are not modelled: [+ ? { ( ) ^ $ |]. *)
Definition unmodelled_special (c : char) : bool :=
  existsb (chr_eqb c) (codes "+?{()^$|").

Inductive mode :=
| TOP
| INSET (items : list set_item).  (* inside [...], items so far, reversed *)

(** The tokenizer reads one token ahead, so a lone backslash at the very
    end is reported as soon as the token before it is taken. *)
Definition dangling (rest : str) : bool :=
  match rest with
  | [b] => chr_eqb b BACKSLASH
  | _ => false
  end.

(** The parser loop.  [acc] is the reversed [subpattern] list. *)
Fixpoint parse (m : mode) (acc : list node) (s : str) : result pattern :=
  match s with
  | [] =>
      match m with
      | TOP => Ok (rev acc)
      | INSET _ => Err UnterminatedSet
      end
  | c :: s1 =>
      if chr_eqb c BACKSLASH then
        match s1 with
        | [] => Err BadEscapeEnd
        | d :: s2 =>
            if dangling s2 then Err BadEscapeEnd
            else
              match m with
              | TOP =>
                  match escape d with
                  | Ok a => parse TOP (ONE a :: acc) s2
                  | Err e => Err e
                  end
              | INSET items =>
                  match class_escape d with
                  | Ok i =>
                      match s2 with
                      | [] => parse (INSET (i :: items)) acc s2
                      | r :: _ =>
                          if chr_eqb r (ord "-") then Err (OutsideFragment r)
                          else parse (INSET (i :: items)) acc s2
                      end
                  | Err e => Err e
                  end
              end
        end
      else if dangling s1 then Err BadEscapeEnd
      else
        match m with
        | TOP =>
            if chr_eqb c (ord "[") then
              match s1 with
              | [] => Err UnterminatedSet
              | d :: _ =>
                  if chr_eqb d (ord "^") then Err (OutsideFragment d)
                  else parse (INSET []) acc s1
              end
            else if chr_eqb c (ord "*") then
              match acc with
              | [] => Err NothingToRepeat
              | ONE a :: acc' =>
                  match s1 with
                  | [] => parse TOP (MAX_REPEAT a :: acc') s1
                  | q :: s2 =>
                      if chr_eqb q (ord "?")
                      then parse TOP (MIN_REPEAT a :: acc') s2
                      else if chr_eqb q (ord "+") then Err (OutsideFragment q)
                      else parse TOP (MAX_REPEAT a :: acc') s1
                  end
              | _ :: _ => Err MultipleRepeat
              end
            else if chr_eqb c (ord ".") then parse TOP (ONE ANY :: acc) s1
            else if unmodelled_special c then Err (OutsideFragment c)
            else parse TOP (ONE (LITERAL c) :: acc) s1
        | INSET items =>
            if chr_eqb c (ord "]") && negb (Nat.eqb (length items) 0) then
              parse TOP (ONE (IN (rev items)) :: acc) s1
            else
              match s1 with
              | [] => parse (INSET (SLiteral c :: items)) acc s1
              | r :: _ =>
                  if chr_eqb r (ord "-") then Err (OutsideFragment r)
                  else parse (INSET (SLiteral c :: items)) acc s1
              end
        end
  end.

(** The compiler turns [ANY] into [ANY_ALL] under DOTALL. *)
Definition compile_atom (f : flags) (a : atom) : atom :=
  match f, a with
  | DOTALL, ANY => ANY_ALL
  | _, _ => a
  end.

Definition compile_node (f : flags) (n : node) : node :=
  match n with
  | ONE a => ONE (compile_atom f a)
  | MAX_REPEAT a => MAX_REPEAT (compile_atom f a)
  | MIN_REPEAT a => MIN_REPEAT (compile_atom f a)
  end.

(** [re.compile(pattern, flags)] *)
Definition compile (pat : str) (f : flags) : result pattern :=
  bind (parse TOP [] pat) (fun p => Ok (map (compile_node f) p)).

(** The pattern of a literal text. *)
Definition lits (s : str) : pattern := map (fun c => ONE (LITERAL c)) s.

Definition SPACES : atom := IN [SCategory CATEGORY_SPACE].

(** *** Matching *)

Definition category_match (k : category) (c : char) : bool :=
  match k with
  | CATEGORY_SPACE => is_space c
  | CATEGORY_NOT_SPACE => negb (is_space c)
  end.

Definition item_match (c : char) (i : set_item) : bool :=
  match i with
  | SLiteral x => chr_eqb c x
  | SCategory k => category_match k c
  end.

Definition atom_match (a : atom) (c : char) : bool :=
  match a with
  | LITERAL x => chr_eqb c x
  | ANY => negb (chr_eqb c NL)
  | ANY_ALL => true
  | IN items => existsb (item_match c) items
  end.

(** The backtracking matcher: the first match of [p] at the head of the
    string in the engine's order of preference (a lazy repeat tries the
    rest of the pattern before taking one more character, a greedy repeat
    takes one more character first).  The result is the text left after
    the match.  [ban = Some n] rejects a match that leaves exactly [n]
    characters: with [n] the length of the string this is the engine's
    [must_advance], the search for a non-empty match. *)
Fixpoint match_here (ban : option nat) (p : pattern) : str -> option str :=
  match p with
  | [] => fun s =>
      match ban with
      | Some n => if Nat.eqb (length s) n then None else Some s
      | None => Some s
      end
  | ONE a :: p' => fun s =>
      match s with
      | c :: s' => if atom_match a c then match_here ban p' s' else None
      | [] => None
      end
  | MIN_REPEAT a :: p' =>
      fix lazy (s : str) : option str :=
        match match_here ban p' s with
        | Some r => Some r
        | None =>
            match s with
            | c :: s' => if atom_match a c then lazy s' else None
            | [] => None
            end
        end
  | MAX_REPEAT a :: p' =>
      fix greedy (s : str) : option str :=
        match s with
        | c :: s' =>
            if atom_match a c then
              match greedy s' with
              | Some r => Some r
              | None => match_here ban p' s
              end
            else match_here ban p' s
        | [] => match_here ban p' s
        end
  end.

(** [re.search(p, s) is not None] *)
Fixpoint found (p : pattern) (s : str) : bool :=
  match match_here None p s with
  | Some _ => true
  | None =>
      match s with
      | [] => false
      | _ :: s' => found p s'
      end
  end.

(** The loop of [Pattern.sub] with a literal replacement: at every position
    not inside the previous match, the leftmost match is replaced.  After an
    empty match the engine looks for a non-empty one at the same place
    before it copies the character and moves on. *)
Fixpoint sub_scan (p : pattern) (repl : str) (skip : nat) (s : str) : str :=
  match s with
  | [] =>
      match match_here None p [] with
      | Some _ => repl
      | None => []
      end
  | c :: s' =>
      match skip with
      | S k => sub_scan p repl k s'
      | O =>
          match match_here None p s with
          | None => c :: sub_scan p repl 0 s'
          | Some rest =>
              match length s - length rest with
              | S k => repl ++ sub_scan p repl k s'
              | O =>
                  repl ++
                  match match_here (Some (length s)) p s with
                  | Some rest' =>
                      repl ++ sub_scan p repl (length s - length rest' - 1) s'
                  | None => c :: sub_scan p repl 0 s'
                  end
              end
          end
      end
  end.

(** *** The replacement template ([_parser.parse_template]) *)

(** Group references ([\g<..>], [\0]..[\9]) are outside the fragment; a
    character escape is replaced by its character; a backslash before any
    other ASCII letter is an error; before anything else it stays, with
    that character. *)
Fixpoint parse_template (t : str) : result str :=
  match t with
  | [] => Ok []
  | c :: t1 =>
      if chr_eqb c BACKSLASH then
        match t1 with
        | [] => Err BadEscapeEnd
        | d :: t2 =>
            if dangling t2 then Err BadEscapeEnd
            else if chr_eqb d (ord "g") || is_digit d then Err (OutsideFragment d)
            else
              match char_escape d with
              | Some x => bind (parse_template t2) (fun r => Ok (x :: r))
              | None =>
                  if is_ascii_letter d then Err (BadEscape d)
                  else bind (parse_template t2) (fun r => Ok (c :: d :: r))
              end
        end
      else if dangling t1 then Err BadEscapeEnd
      else bind (parse_template t1) (fun r => Ok (c :: r))
  end.

(** A replacement without a backslash is used as it is. *)
Definition template (repl : str) : result str :=
  if existsb (chr_eqb BACKSLASH) repl then parse_template repl else Ok repl.

(** [re.sub(pattern, repl, string, flags=f)] *)
Definition sub (pat repl s : str) (f : flags) : result str :=
  bind (compile pat f) (fun p =>
  bind (template repl) (fun r =>
  Ok (sub_scan p r 0 s))).

End Re.

Import Re.

(** ** The script *)

Module Script.

(** A statement of the rewrite sequence: [content = content.replace(old, new)]
    or [content = re.sub(pat, repl, content, flags=f)]. *)
Inductive stmt :=
| Replace (old new : str)
| Sub (pat repl : str) (f : flags).

Definition exec_stmt (st : stmt) (content : str) : result str :=
  match st with
  | Replace old new => Ok (str_replace old new content)
  | Sub pat repl f => Re.sub pat repl content f
  end.

(** Does the statement's matcher occur in the buffer? *)
Definition stmt_matches (st : stmt) (content : str) : bool :=
  match st with
  | Replace old _ => occurs old content
  | Sub pat _ f =>
      match compile pat f with
      | Ok p => found p content
      | Err _ => false
      end
  end.

Definition stmt_repl (st : stmt) : str :=
  match st with
  | Replace _ new => new
  | Sub _ repl _ => repl
  end.

(** How a run of the sequence ends: with the final buffer, or with the
    exception raised at a line and the buffer as it was at that moment. *)
Inductive outcome :=
| Finished (content : str)
| Raised (e : error) (line : nat) (content : str).

Definition program := list (nat * stmt).

(** Statements run in order; each rebinds [content]; an exception stops
    the run. *)
Fixpoint exec (prog : program) (content : str) : outcome :=
  match prog with
  | [] => Finished content
  | (line, st) :: rest =>
      match exec_stmt st content with
      | Ok content' => exec rest content'
      | Err e => Raised e line content
      end
  end.

Definition join_lines (ls : list string) : str :=
  match ls with
  | [] => []
  | l :: ls' => codes l ++ flat_map (fun x => NL :: codes x) ls'
  end.

(** Lines 35-54.  [old_extract_odds] is a raw string; [new_extract_odds] is
    not, so each doubled backslash of its source text is one backslash
    here. *)
Definition old_extract_odds : str :=
  codes "// Helper function to extract odds from analysis prompt\s*\n\s*const extractOddsFromAnalysis = \(pick\) => \{[\s\S]*?return \'\';\s*\n\s*\};".

Definition new_extract_odds : str :=
  join_lines
    [ "// Helper function to extract odds from analysis prompt";
      "            const extractOddsFromAnalysis = (pick) => {";
      "              try {";
      "                // Try to get directly from OpenAI output";
      "                if (pick.rawAnalysis?.rawOpenAIOutput?.odds) {";
      "                  return pick.rawAnalysis.rawOpenAIOutput.odds;";
      "                }";
      "                ";
      "                // Extract from analysis prompt if available";
      "                if (pick.analysisPrompt) {";
      "                  const teamName = pick.pick?.split(' ').slice(0, -1).join(' ');";
      "                  const oddsMatch = pick.analysisPrompt.match(new RegExp(`${teamName}.*?\(([-+]?\d+)\)`));";
      "                  if (oddsMatch) return oddsMatch[1];";
      "                }";
      "              } catch (error) {";
      "                console.error('Error extracting odds:', error);";
      "              }";
      "              return '';";
      "            };" ]%string.

(** The eight numbered groups of the script, each statement with its line. *)
Definition import_line : str :=
  codes "import { BetCard } from './BetCard';" ++ [NL].

Definition rule1 : program :=
  [ (10, Replace import_line []) ].

Definition stmt18 : stmt :=
  Sub (codes "console\.log\(\'Time field variations:\',.*?\);\n.*?\);\n") [] DOTALL.

Definition rule2 : program :=
  [ (14, Sub (codes "console\.log\(\'Complete Supabase data structure:\',.*?\);\n") [] NOFLAGS);
    (15, Sub (codes "console\.log\(\'Direct time field check:\',.*?\);\n") [] NOFLAGS);
    (16, Sub (codes "console\.log\(\'Processing valid pick from Supabase:\',.*?\);\n") [] NOFLAGS);
    (17, Sub (codes "console\.log\(\'Game time from database:\',.*?\);\n") [] NOFLAGS);
    (18, stmt18);
    (19, Sub (codes "console\.log\(\'Valid pick ready for rendering:\',.*?\);\n") [] NOFLAGS);
    (20, Sub (codes "console\.log\(\'Parsed and enhanced picksArray:\',.*?\);\n") [] NOFLAGS);
    (21, Sub (codes "console\.log\(`Original time parts:.*?\);\n") [] NOFLAGS) ].

Definition stmt24 : stmt :=
  Sub (codes "// Debug logs for troubleshooting\s*\n\s*useEffect\(\(\) => \{\s*\n.*?console\.log.*?\n.*?console\.log.*?\n.*?console\.log.*?\n\s*\}, \[picks, loading, error\]\);\n") [] DOTALL.

Definition rule3 : program :=
  [ (24, stmt24) ].

Definition rule4 : program :=
  [ (32, Replace (NL :: codes "  // Using hardcoded performance values" ++ [NL]) []) ].

Definition stmt55 : stmt := Sub old_extract_odds new_extract_odds DOTALL.

Definition rule5 : program :=
  [ (55, stmt55) ].

Definition rule6 : program :=
  [ (58, Replace (codes "// Removed unused state variables for bet tracking" ++ [NL]) []);
    (59, Replace (NL :: codes "  // Toast notification system") []) ].

Definition stmt64 : stmt :=
  Sub (codes "// Increment reloadKey to force BetCard to reload\s*\n\s*setReloadKey\(prev => \{\s*\n.*?\n.*?\n\s*\}\);\s*\n") [] DOTALL.

Definition rule7 : program :=
  [ (62, Replace (codes "  const [reloadKey, setReloadKey] = useState(0);" ++ [NL]) []);
    (64, stmt64) ].

Definition rule8 : program :=
  [ (67, Sub (codes "const pageTitle = visiblePicks\.length[\s\S]*?" ++ [DQUOTE]
              ++ codes "Gary\'s Picks" ++ [DQUOTE] ++ codes ";\n") [] NOFLAGS) ].

Definition rules : list program :=
  [rule1; rule2; rule3; rule4; rule5; rule6; rule7; rule8].

(** Lines 10-67. *)
Definition script : program :=
  rule1 ++ rule2 ++ rule3 ++ rule4 ++ rule5 ++ rule6 ++ rule7 ++ rule8.

Definition run (content : str) : outcome := exec script content.

(** The deletion statements: every statement but the rewrite of line 55. *)
Definition deletions : program :=
  rule1 ++ rule2 ++ rule3 ++ rule4 ++ rule6 ++ rule7 ++ rule8.

(** Lines 6-7 and 70-71: the decoded text of the file is read into
    [content] with its line endings turned into newlines, and written back
    after the last statement; an exception leaves the file as it was.  The
    result is the file's text afterwards, with the outcome of the run. *)
Definition main_of (prog : program) (file : str) : str * outcome :=
  match exec prog (universal_newlines file) with
  | Finished content => (content, Finished content)
  | Raised e line content => (file, Raised e line content)
  end.

Definition main : str -> str * outcome := main_of script.

(** The script as the specification words it: a left fold of the rule list
    over the buffer, each rule taking the output of the one before.  An
    outcome that is an exception is carried to the end unchanged. *)
Definition step (o : outcome) (ls : nat * stmt) : outcome :=
  match o with
  | Finished content =>
      match exec_stmt (snd ls) content with
      | Ok content' => Finished content'
      | Err e => Raised e (fst ls) content
      end
  | Raised _ _ _ => o
  end.

Definition and_then (o : outcome) (rule : program) : outcome :=
  match o with
  | Finished content => exec rule content
  | Raised _ _ _ => o
  end.

Definition pipeline_fold (rs : list program) (content : str) : outcome :=
  fold_left and_then rs (Finished content).

(** A deletion statement: the replacement is empty, the matcher is a
    non-empty literal or a pattern that compiles and begins with a
    one-character item (so that it never matches the empty text). *)
Definition is_deletion (st : stmt) : bool :=
  match st with
  | Replace old new =>
      negb (Nat.eqb (length old) 0) && Nat.eqb (length new) 0
  | Sub pat repl f =>
      Nat.eqb (length repl) 0 &&
      match compile pat f with
      | Ok (ONE _ :: _) => true
      | _ => false
      end
  end.

Definition no_matcher_occurs (prog : program) (content : str) : bool :=
  forallb (fun ls => negb (stmt_matches (snd ls) content)) prog.

(** The texts the block rules look for, as they stand in the buffer. *)
Definition time_prefix : str := codes "console.log('Time field variations:',".
Definition call_end : str := codes ");" ++ [NL].

Definition debug_comment : str := codes "// Debug logs for troubleshooting".
Definition effect_open : str := codes "useEffect(() => {".
Definition console_log : str := codes "console.log".
Definition effect_close : str := codes "}, [picks, loading, error]);" ++ [NL].

Definition reload_comment : str :=
  codes "// Increment reloadKey to force BetCard to reload".
Definition setter_open : str := codes "setReloadKey(prev => {".
Definition setter_close : str := codes "});".

(** Text that begins with indentation (whitespace other than a newline,
    possibly none) followed by a character that is not whitespace. *)
Fixpoint indented_text (t : str) : bool :=
  match t with
  | [] => false
  | c :: t' =>
      if is_space c then negb (chr_eqb c NL) && indented_text t'
      else true
  end.

(** A reloadKey block, up to the first newline after its closing; the
    same followed by an empty line and a statement. *)
Definition reload_block : str :=
  reload_comment ++ NL :: codes "  " ++ setter_open ++ NL ::
  codes "    log(prev);" ++ NL :: codes "    return prev + 1;" ++ NL ::
  codes "  " ++ setter_close ++ [NL].

Definition reload_sample : str :=
  reload_block ++ NL :: codes "next();" ++ [NL].

(** A time-field log over three lines, after one statement and before two. *)
Definition time_sample : str :=
  codes "first();" ++ NL :: time_prefix ++ codes " {" ++ NL ::
  codes "  raw: pick.time" ++ NL :: codes "}" ++ call_end ++
  codes "second(" ++ call_end ++ codes "third();" ++ [NL].

(** A debug effect after a statement; a statement and a second closing
    line follow it. *)
Definition debug_sample : str :=
  codes "first();" ++ NL :: debug_comment ++ NL :: codes "  " ++
  effect_open ++ NL ::
  codes "    " ++ console_log ++ codes "('picks', picks);" ++ NL ::
  codes "    " ++ console_log ++ codes "('loading', loading);" ++ NL ::
  codes "    " ++ console_log ++ codes "('error', error);" ++ NL ::
  codes "  " ++ effect_close ++ codes "second();" ++ NL ::
  codes "  " ++ effect_close.

(** Sample buffers. *)
Definition plain_text : str := codes "const a = 1;" ++ [NL].

Definition two_imports : str := import_line ++ import_line ++ plain_text.

(** The import line with a second copy of itself inserted after its first
    ten characters. *)
Definition nested_import : str :=
  firstn 10 import_line ++ import_line ++ skipn 10 import_line.

(** A buffer that holds only the comment line 58 deletes and a statement. *)
Definition late_sample : str :=
  codes "// Removed unused state variables for bet tracking" ++ NL :: plain_text.

(** A debug effect with two log lines only; after its closing line come a
    statement, a third log line and a second closing line. *)
Definition debug_short_head : str :=
  debug_comment ++ NL :: codes "  " ++ effect_open ++ NL ::
  codes "    " ++ console_log ++ codes "('picks', picks);" ++ NL ::
  codes "    " ++ console_log ++ codes "('loading', loading);" ++ NL ::
  codes "  " ++ effect_close.

Definition debug_short_tail : str :=
  codes "keep();" ++ NL ::
  codes "    " ++ console_log ++ codes "('later');" ++ NL ::
  codes "  " ++ effect_close.

Definition debug_short_sample : str :=
  debug_short_head ++ debug_short_tail ++ plain_text.

(** A reloadKey block with a body of one line; a second closing follows
    its closing. *)
Definition reload_short_head : str :=
  reload_comment ++ NL :: codes "  " ++ setter_open ++ NL ::
  codes "    return prev + 1;" ++ NL ::
  codes "  " ++ setter_close ++ [NL].

Definition reload_short_tail : str :=
  codes "  " ++ setter_close ++ [NL].

Definition reload_short_sample : str :=
  reload_short_head ++ reload_short_tail ++ plain_text.

End Script.

Import Script.

(** ** The caches of the module [re] *)

Module Cache.

(** Between calls the module keeps what it has compiled: patterns in
    [_cache], a dictionary by pattern and flags from which the oldest entry
    is dropped when 512 are held, and replacement templates in the
    [lru_cache] of [_compile_repl], by replacement and pattern, from which
    the least recently used entry is dropped.  An exception stores nothing.
    Both are lists here, oldest (least recently used) entry first. *)
Definition key := (str * flags)%type.
Definition pattern_cache := list (key * pattern).
Definition template_cache := list ((str * key) * str).

Record caches := { patterns : pattern_cache; templates : template_cache }.

Definition MAXCACHE : nat := 512.

Fixpoint str_eqb (a b : str) : bool :=
  match a, b with
  | [], [] => true
  | x :: a', y :: b' => chr_eqb x y && str_eqb a' b'
  | _, _ => false
  end.

Definition flags_eqb (f g : flags) : bool :=
  match f, g with
  | NOFLAGS, NOFLAGS => true
  | DOTALL, DOTALL => true
  | _, _ => false
  end.

Definition key_eqb (k l : key) : bool :=
  str_eqb (fst k) (fst l) && flags_eqb (snd k) (snd l).

Definition tkey_eqb (k l : str * key) : bool :=
  str_eqb (fst k) (fst l) && key_eqb (snd k) (snd l).

Fixpoint lookup {K V : Type} (eqb : K -> K -> bool) (k : K)
  (c : list (K * V)) : option V :=
  match c with
  | [] => None
  | (k', v) :: c' => if eqb k k' then Some v else lookup eqb k c'
  end.

Fixpoint drop_key {K V : Type} (eqb : K -> K -> bool) (k : K)
  (c : list (K * V)) : list (K * V) :=
  match c with
  | [] => []
  | (k', v) :: c' =>
      if eqb k k' then drop_key eqb k c' else (k', v) :: drop_key eqb k c'
  end.

(** Room for one more entry. *)
Definition make_room {A : Type} (c : list A) : list A :=
  if MAXCACHE <=? length c then tl c else c.

(** [_compile(pattern, flags)] *)
Definition compile_cached (c : pattern_cache) (pat : str) (f : flags)
  : pattern_cache * result pattern :=
  match lookup key_eqb (pat, f) c with
  | Some p => (c, Ok p)
  | None =>
      match compile pat f with
      | Ok p => (make_room c ++ [((pat, f), p)], Ok p)
      | Err e => (c, Err e)
      end
  end.

(** The replacement of a [sub] call: used as it is without a backslash,
    else parsed through [_compile_repl]. *)
Definition template_cached (c : template_cache) (repl : str) (k : key)
  : template_cache * result str :=
  if existsb (chr_eqb BACKSLASH) repl then
    match lookup tkey_eqb (repl, k) c with
    | Some r => (drop_key tkey_eqb (repl, k) c ++ [((repl, k), r)], Ok r)
    | None =>
        match parse_template repl with
        | Ok r => (make_room c ++ [((repl, k), r)], Ok r)
        | Err e => (c, Err e)
        end
    end
  else (c, Ok repl).

(** [re.sub(pattern, repl, string, flags=f)] with the caches it reads and
    leaves behind. *)
Definition sub_cached (c : caches) (pat repl s : str) (f : flags)
  : caches * result str :=
  match compile_cached (patterns c) pat f with
  | (pc, Err e) => ({| patterns := pc; templates := templates c |}, Err e)
  | (pc, Ok p) =>
      match template_cached (templates c) repl (pat, f) with
      | (tc, Err e) => ({| patterns := pc; templates := tc |}, Err e)
      | (tc, Ok r) =>
          ({| patterns := pc; templates := tc |}, Ok (sub_scan p r 0 s))
      end
  end.

Definition exec_stmt_cached (c : caches) (st : stmt) (content : str)
  : caches * result str :=
  match st with
  | Replace old new => (c, Ok (str_replace old new content))
  | Sub pat repl f => sub_cached c pat repl content f
  end.

Fixpoint exec_cached (c : caches) (prog : program) (content : str)
  : caches * outcome :=
  match prog with
  | [] => (c, Finished content)
  | (line, st) :: rest =>
      match exec_stmt_cached c st content with
      | (c', Ok content') => exec_cached c' rest content'
      | (c', Err e) => (c', Raised e line content)
      end
  end.

(** Lines 10-67 run in a process whose [re] caches are [c]. *)
Definition run_cached (c : caches) (content : str) : caches * outcome :=
  exec_cached c script content.

(** What a cache can hold: under a key the model compiles, the compiled
    form; nothing under a key whose compilation raises.  (A key outside
    the modelled fragment may hold anything.) *)
Definition holds_compiled (e : key * pattern) : Prop :=
  match compile (fst (fst e)) (snd (fst e)) with
  | Ok p => snd e = p
  | Err (OutsideFragment _) => True
  | Err _ => False
  end.

Definition holds_parsed (e : (str * key) * str) : Prop :=
  match parse_template (fst (fst e)) with
  | Ok r => snd e = r
  | Err (OutsideFragment _) => True
  | Err _ => False
  end.

Definition consistent (c : caches) : Prop :=
  Forall holds_compiled (patterns c) /\ Forall holds_parsed (templates c).

(** Every pattern and every replacement of the program lies in the
    modelled fragment. *)
Definition stmt_in_fragment (st : stmt) : bool :=
  match st with
  | Replace _ _ => true
  | Sub pat repl f =>
      match compile pat f with
      | Err (OutsideFragment _) => false
      | _ => true
      end &&
      match parse_template repl with
      | Err (OutsideFragment _) => false
      | _ => true
      end
  end.

Definition empty : caches := {| patterns := []; templates := [] |}.

(** Caches left by an earlier [re.sub] with the pattern of line 14 and by
    a replacement with an escaped backslash. *)
Definition warm : caches :=
  {| patterns :=
       [ ((codes "console\.log\(\'Complete Supabase data structure:\',.*?\);\n",
           NOFLAGS),
          lits (codes "console.log('Complete Supabase data structure:',")
            ++ MIN_REPEAT ANY :: lits (codes ");" ++ [NL])) ];
     templates :=
       [ ((codes "a\\b", (codes "x", NOFLAGS)), codes "a\b") ] |}.

End Cache.

Import Cache.

(** ** The whole script, with its effects *)

Module Whole.

(** Lines 6-7: [open(path, 'r')] and [f.read()] either raise or give the
    text of the file. *)
Inductive read_result :=
| ReadFails
| ReadText (content : str).

(** What the script does to the outside, in order. *)
Inductive action :=
| Write (content : str)    (* lines 70-71 *)
| Print (line : string).   (* lines 73-80 *)

Inductive exit :=
| ExitOk
| ExitReadError
| ExitReError (e : error) (line : nat)
| ExitWriteError.

(** Lines 73-80. *)
Definition summary : list string :=
  [ "Cleaned up RealGaryPicks.jsx:";
    "- Removed unused BetCard import";
    "- Removed excessive console.log statements";
    "- Removed debug logging effects";
    "- Simplified extractOddsFromAnalysis function";
    "- Removed unused reloadKey state";
    "- Removed unused pageTitle variable";
    "- Cleaned up verbose comments" ]%string.

(** Lines 6-80.  [writable] tells whether [open(path, 'w')] succeeds.  No
    exception is caught, so the first one ends the script. *)
Definition whole (r : read_result) (writable : bool) : list action * exit :=
  match r with
  | ReadFails => ([], ExitReadError)
  | ReadText content =>
      match run content with
      | Raised e line _ => ([], ExitReError e line)
      | Finished content' =>
          if writable then (Write content' :: map Print summary, ExitOk)
          else ([], ExitWriteError)
      end
  end.

End Whole.

Import Whole.

(** ** Vocabulary for the properties *)

(** [a] is [b] with some characters left out. *)
Inductive subsequence : str -> str -> Prop :=
| subsequence_nil : subsequence [] []
| subsequence_keep (c : char) (a b : str) :
    subsequence a b -> subsequence (c :: a) (c :: b)
| subsequence_drop (c : char) (a b : str) :
    subsequence a b -> subsequence a (c :: b).

(** No newline in the text. *)
Definition one_line (m : str) : bool :=
  forallb (fun c => negb (chr_eqb c NL)) m.

(** [T] occurs fewer than two times in [s], counting from the left
    occurrences that do not overlap ([s.count(T) < 2]). *)
Definition fewer_than_two (T s : str) : bool :=
  match find T s with
  | None => true
  | Some k => negb (occurs T (skipn (k + length T) s))
  end.

(** The texts the single-line log rules of lines 14-17 and 19-21 begin
    with, by line. *)
Definition log_prefixes : list (nat * str) :=
  [ (14, codes "console.log('Complete Supabase data structure:',");
    (15, codes "console.log('Direct time field check:',");
    (16, codes "console.log('Processing valid pick from Supabase:',");
    (17, codes "console.log('Game time from database:',");
    (19, codes "console.log('Valid pick ready for rendering:',");
    (20, codes "console.log('Parsed and enhanced picksArray:',");
    (21, codes "console.log(`Original time parts:") ].

(** The two ends of the text line 67 removes. *)
Definition title_prefix : str := codes "const pageTitle = visiblePicks.length".
Definition title_end : str :=
  DQUOTE :: codes "Gary's Picks" ++ DQUOTE :: codes ";" ++ [NL].

(** [\s\S] as a set: it matches every character. *)
Definition ANYTHING : atom :=
  IN [SCategory CATEGORY_SPACE; SCategory CATEGORY_NOT_SPACE].

(** * Properties *)

(** ** [str.replace] *)

Section ReplaceFacts.

Variables old new : str.

Lemma chr_eqb_refl (c : char) : chr_eqb c c = true.
Proof. apply N.eqb_refl. Qed.

Lemma chr_eqb_eq (a b : char) : chr_eqb a b = true <-> a = b.
Proof. apply N.eqb_eq. Qed.

Lemma starts_with_app (p s : str) : starts_with p (p ++ s) = true.
Proof.
  induction p as [|a p IH]; simpl; [reflexivity|].
  now rewrite chr_eqb_refl, IH.
Qed.

(** Dropping the rest of an occurrence. *)
Lemma replace_scan_skip (m s : str) :
  replace_scan old new (length m) (m ++ s) = replace_scan old new 0 s.
Proof. induction m as [|c m IH]; simpl; auto. Qed.

Lemma replace_scan_miss (c : char) (s : str) :
  starts_with old (c :: s) = false ->
  replace_scan old new 0 (c :: s) = c :: replace_scan old new 0 s.
Proof. intros H. cbn [replace_scan]. now rewrite H. Qed.

Lemma replace_scan_absent (s : str) :
  occurs old s = false -> replace_scan old new 0 s = s.
Proof.
  induction s as [|c s IH]; intros H; [reflexivity|].
  cbn [occurs] in H. apply orb_false_iff in H as [H1 H2].
  rewrite replace_scan_miss by exact H1. now rewrite IH.
Qed.

End ReplaceFacts.

Lemma replace_scan_hit (old new s : str) :
  old <> [] ->
  replace_scan old new 0 (old ++ s) = new ++ replace_scan old new 0 s.
Proof.
  destruct old as [|c o]; [congruence|]. intros _.
  cbn [app replace_scan].
  change (starts_with (c :: o) (c :: o ++ s)) with (starts_with (c :: o) ((c :: o) ++ s)).
  rewrite starts_with_app.
  replace (length (c :: o) - 1) with (length o) by (simpl; lia).
  now rewrite replace_scan_skip.
Qed.

Lemma str_replace_absent (old new s : str) :
  old <> [] -> occurs old s = false -> str_replace old new s = s.
Proof.
  intros Hne H. destruct old as [|c o]; [congruence|].
  now apply replace_scan_absent.
Qed.

Lemma replace_scan_delete_length (old : str) (k : nat) (s : str) :
  length (replace_scan old [] k s) <= length s.
Proof.
  revert k; induction s as [|c s IH]; intros k; [simpl; lia|].
  cbn [replace_scan]. destruct k as [|k].
  - destruct (starts_with old (c :: s)).
    + cbn [app length]. specialize (IH (length old - 1)). lia.
    + cbn [length]. specialize (IH 0). lia.
  - cbn [length]. specialize (IH k). lia.
Qed.

Lemma str_replace_delete_length (old s : str) :
  old <> [] -> length (str_replace old [] s) <= length s.
Proof.
  intros Hne. destruct old as [|c o]; [congruence|].
  apply replace_scan_delete_length.
Qed.

(** ** The matcher and [re.sub] *)

(** The defining equations of the matcher, one per kind of item. *)
Lemma match_here_one (ban : option nat) (a : atom) (q : pattern) (s : str) :
  match_here ban (ONE a :: q) s =
  match s with
  | c :: s' => if atom_match a c then match_here ban q s' else None
  | [] => None
  end.
Proof. reflexivity. Qed.

Lemma match_here_lazy (ban : option nat) (a : atom) (q : pattern) (s : str) :
  match_here ban (MIN_REPEAT a :: q) s =
  match match_here ban q s with
  | Some r => Some r
  | None =>
      match s with
      | c :: s' =>
          if atom_match a c then match_here ban (MIN_REPEAT a :: q) s' else None
      | [] => None
      end
  end.
Proof. destruct s; reflexivity. Qed.

Lemma match_here_greedy (ban : option nat) (a : atom) (q : pattern) (s : str) :
  match_here ban (MAX_REPEAT a :: q) s =
  match s with
  | c :: s' =>
      if atom_match a c then
        match match_here ban (MAX_REPEAT a :: q) s' with
        | Some r => Some r
        | None => match_here ban q s
        end
      else match_here ban q s
  | [] => match_here ban q s
  end.
Proof. destruct s; reflexivity. Qed.

(** What is left after a match is a suffix of the text. *)
Lemma match_here_suffix (ban : option nat) (q : pattern) (s r : str) :
  match_here ban q s = Some r -> exists m, s = m ++ r.
Proof.
  revert s r; induction q as [|n q IH]; intros s r H.
  - exists []. simpl in H. destruct ban as [b|].
    + destruct (Nat.eqb (length s) b); now inversion H.
    + now inversion H.
  - destruct n as [a|a|a].
    + rewrite match_here_one in H. destruct s as [|c s]; [discriminate|].
      destruct (atom_match a c); [|discriminate].
      destruct (IH _ _ H) as [m ->]. now exists (c :: m).
    + revert H. induction s as [|c s IHs]; intros H;
        rewrite match_here_greedy in H.
      * exact (IH _ _ H).
      * destruct (atom_match a c); [|exact (IH _ _ H)].
        destruct (match_here ban (MAX_REPEAT a :: q) s) as [r'|] eqn:E.
        -- injection H as <-. destruct (IHs eq_refl) as [m ->]. now exists (c :: m).
        -- exact (IH _ _ H).
    + revert H. induction s as [|c s IHs]; intros H;
        rewrite match_here_lazy in H.
      * destruct (match_here ban q []) eqn:E; [|discriminate].
        injection H as <-. exact (IH _ _ E).
      * destruct (match_here ban q (c :: s)) as [r'|] eqn:E.
        -- injection H as <-. exact (IH _ _ E).
        -- destruct (atom_match a c); [|discriminate].
           destruct (IHs H) as [m ->]. now exists (c :: m).
Qed.

Section SubFacts.

Variable p : pattern.
Variable repl : str.

(** Dropping the rest of a match. *)
Lemma sub_scan_skip (m s : str) :
  sub_scan p repl (length m) (m ++ s) = sub_scan p repl 0 s.
Proof. induction m as [|c m IH]; simpl; auto. Qed.

Lemma sub_scan_miss (c : char) (s : str) :
  match_here None p (c :: s) = None ->
  sub_scan p repl 0 (c :: s) = c :: sub_scan p repl 0 s.
Proof. intros H. cbn [sub_scan]. now rewrite H. Qed.

(** A non-empty match is replaced and the scan goes on after it. *)
Lemma sub_scan_hit (m r : str) :
  m <> [] ->
  match_here None p (m ++ r) = Some r ->
  sub_scan p repl 0 (m ++ r) = repl ++ sub_scan p repl 0 r.
Proof.
  intros Hm H. destruct m as [|c m]; [congruence|].
  cbn [app] in *. cbn [sub_scan]. rewrite H.
  replace (length (c :: m ++ r) - length r) with (S (length m))
    by (cbn [length]; rewrite length_app; lia).
  now rewrite sub_scan_skip.
Qed.

Lemma found_cons (c : char) (s : str) :
  found p (c :: s) = false ->
  match_here None p (c :: s) = None /\ found p s = false.
Proof.
  cbn [found]. destruct (match_here None p (c :: s)); [discriminate|]. auto.
Qed.

Lemma sub_scan_absent (s : str) :
  found p s = false -> sub_scan p repl 0 s = s.
Proof.
  induction s as [|c s IH]; intros H.
  - cbn in *. now destruct (match_here None p []).
  - apply found_cons in H as [H1 H2].
    rewrite sub_scan_miss by exact H1. now rewrite IH.
Qed.

End SubFacts.

Lemma sub_scan_delete_length (p : pattern) (k : nat) (s : str) :
  length (sub_scan p [] k s) <= length s.
Proof.
  revert k; induction s as [|c s IH]; intros k.
  - cbn. destruct (match_here None p []); simpl; lia.
  - cbn [sub_scan].
    destruct k as [|k];
      repeat match goal with
             | |- context [match ?x with _ => _ end] => destruct x
             end;
      cbn [app length];
      match goal with
      | |- context [sub_scan p [] ?n s] => specialize (IH n); lia
      end.
Qed.

Lemma replace_scan_delete_shorter (old s : str) :
  old <> [] -> occurs old s = true ->
  length (replace_scan old [] 0 s) < length s.
Proof.
  intros Hne. induction s as [|c s IH]; intros H.
  - destruct old; [congruence|discriminate].
  - cbn [replace_scan]. cbn [occurs] in H.
    destruct (starts_with old (c :: s)).
    + cbn [app length].
      pose proof (replace_scan_delete_length old (length old - 1) s). lia.
    + cbn [orb] in H. cbn [length]. specialize (IH H). lia.
Qed.

(** A pattern that begins with a one-character item matches at least one
    character. *)
Lemma match_one_nonempty (a : atom) (q : pattern) (s r : str) :
  match_here None (ONE a :: q) s = Some r -> length r < length s.
Proof.
  rewrite match_here_one. destruct s as [|c s]; [discriminate|].
  destruct (atom_match a c); [|discriminate].
  intros H. destruct (match_here_suffix _ _ _ _ H) as [m ->].
  cbn [length]. rewrite length_app. lia.
Qed.

Lemma sub_scan_delete_shorter (a : atom) (q : pattern) (s : str) :
  found (ONE a :: q) s = true ->
  length (sub_scan (ONE a :: q) [] 0 s) < length s.
Proof.
  induction s as [|c s IH]; intros H; [discriminate|].
  cbn [found] in H. cbn [sub_scan].
  destruct (match_here None (ONE a :: q) (c :: s)) as [r|] eqn:E.
  - apply match_one_nonempty in E.
    destruct (length (c :: s) - length r) as [|k] eqn:D; [lia|].
    cbn [app length].
    pose proof (sub_scan_delete_length (ONE a :: q) k s). lia.
  - cbn [length]. specialize (IH H). lia.
Qed.

(** ** Running statements *)

Lemma template_nil : template [] = Ok [].
Proof. reflexivity. Qed.

Lemma length_zero_nil (s : str) : Nat.eqb (length s) 0 = true -> s = [].
Proof. destruct s; [reflexivity|discriminate]. Qed.

(** A deletion statement never raises and never lengthens the buffer; it
    returns the buffer as it was when its matcher does not occur, and a
    shorter one when it does. *)
Lemma deletion_stmt (st : stmt) (s : str) :
  is_deletion st = true ->
  exists s', exec_stmt st s = Ok s' /\ length s' <= length s /\
             (stmt_matches st s = false -> s' = s) /\
             (stmt_matches st s = true -> length s' < length s).
Proof.
  destruct st as [old new|pat repl f]; cbn [is_deletion]; intros H;
    apply andb_true_iff in H as [H1 H2].
  - apply length_zero_nil in H2; subst new.
    assert (Hne : old <> []) by (destruct old; [discriminate|congruence]).
    exists (str_replace old [] s). cbn [exec_stmt stmt_matches].
    split; [reflexivity|]. split; [|split].
    + now apply str_replace_delete_length.
    + intros Hm. now apply str_replace_absent.
    + intros Hm. destruct old as [|c o]; [congruence|].
      now apply replace_scan_delete_shorter.
  - apply length_zero_nil in H1; subst repl.
    cbn [exec_stmt stmt_matches]. unfold Re.sub.
    destruct (compile pat f) as [[|[a| |] q]|e]; try discriminate.
    cbn [bind]. rewrite template_nil. cbn [bind].
    exists (sub_scan (ONE a :: q) [] 0 s).
    split; [reflexivity|]. split; [|split].
    + apply sub_scan_delete_length.
    + intros Hm. now apply sub_scan_absent.
    + apply sub_scan_delete_shorter.
Qed.

Lemma exec_app (a b : program) (x : str) :
  exec (a ++ b) x = and_then (exec a x) b.
Proof.
  revert x; induction a as [|[line st] a IH]; intros x; [reflexivity|].
  cbn [app exec]. destruct (exec_stmt st x); [apply IH|reflexivity].
Qed.

(** A program of deletion statements always finishes, with a buffer that
    is not longer; the buffer is unchanged when no matcher occurs in it,
    and only then does it keep its length. *)
Lemma exec_deletions (prog : program) (x : str) :
  forallb (fun ls => is_deletion (snd ls)) prog = true ->
  exists y, exec prog x = Finished y /\ length y <= length x /\
            (no_matcher_occurs prog x = true -> y = x) /\
            (length y = length x -> no_matcher_occurs prog x = true).
Proof.
  revert x; induction prog as [|[line st] prog IH]; intros x H.
  - exists x. cbn. auto.
  - cbn [forallb snd] in H. apply andb_true_iff in H as [H1 H2].
    destruct (deletion_stmt st x H1) as (s' & E & Hlen & Hid & Hlt).
    destruct (IH s' H2) as (y & Ey & Hleny & Hidy & Hkeep).
    exists y. cbn [exec]. rewrite E. split; [exact Ey|]. split; [lia|].
    cbn [no_matcher_occurs forallb snd]. split.
    + intros Hn. apply andb_true_iff in Hn as [Hn1 Hn2].
      apply negb_true_iff in Hn1. specialize (Hid Hn1). subst s'.
      now apply Hidy.
    + intros Hsame.
      destruct (stmt_matches st x) eqn:Hm.
      * specialize (Hlt eq_refl). lia.
      * specialize (Hid eq_refl). subst s'. cbn [negb andb].
        apply Hkeep. exact Hsame.
Qed.

Lemma deletions_are_deletions :
  forallb (fun ls => is_deletion (snd ls)) deletions = true.
Proof. vm_compute. reflexivity. Qed.

Lemma rules_1_to_4_are_deletions :
  forallb (fun ls => is_deletion (snd ls)) (rule1 ++ rule2 ++ rule3 ++ rule4) = true.
Proof. vm_compute. reflexivity. Qed.

(** The statement of line 55 raises on every buffer: its replacement holds
    a backslash followed by the letter d, which the template parser
    rejects before the search starts. *)
Lemma sub55_raises (content : str) :
  Re.sub old_extract_odds new_extract_odds content DOTALL
  = Err (BadEscape (ord "d")).
Proof.
  unfold Re.sub.
  destruct (compile old_extract_odds DOTALL) as [p|e] eqn:E;
    [|vm_compute in E; discriminate].
  cbn [bind].
  assert (T : template new_extract_odds = Err (BadEscape (ord "d")))
    by (vm_compute; reflexivity).
  now rewrite T.
Qed.

Lemma script_split :
  script = (rule1 ++ rule2 ++ rule3 ++ rule4) ++ rule5 ++ rule6 ++ rule7 ++ rule8.
Proof. reflexivity. Qed.

(** Every run stops at line 55, with the buffer as rules 1-4 left it. *)
Lemma run_stops_at_55 (x : str) :
  exists c, exec (rule1 ++ rule2 ++ rule3 ++ rule4) x = Finished c /\
            run x = Raised (BadEscape (ord "d")) 55 c /\
            length c <= length x /\
            (no_matcher_occurs (rule1 ++ rule2 ++ rule3 ++ rule4) x = true -> c = x).
Proof.
  destruct (exec_deletions _ x rules_1_to_4_are_deletions)
    as (c & E & Hlen & Hid & _).
  exists c. split; [exact E|]. split; [|split; assumption].
  unfold run. rewrite script_split, exec_app, E.
  cbn [and_then rule5 app exec]. unfold stmt55. cbn [exec_stmt].
  now rewrite sub55_raises.
Qed.

Lemma stmt55_raises (content : str) :
  exec_stmt stmt55 content = Err (BadEscape (ord "d")).
Proof. apply sub55_raises. Qed.

(** ** The sequence as a fold *)

Lemma fold_step_raised (prog : program) (e : error) (line : nat) (c : str) :
  fold_left step prog (Raised e line c) = Raised e line c.
Proof. induction prog as [|ls prog IH]; [reflexivity|exact IH]. Qed.

Lemma exec_fold_step (prog : program) (x : str) :
  exec prog x = fold_left step prog (Finished x).
Proof.
  revert x; induction prog as [|[line st] prog IH]; intros x; [reflexivity|].
  cbn [exec fold_left step snd fst].
  destruct (exec_stmt st x) as [x'|e]; [apply IH|].
  now rewrite fold_step_raised.
Qed.

Lemma and_then_app (o : outcome) (a b : program) :
  and_then o (a ++ b) = and_then (and_then o a) b.
Proof. destruct o as [c|e l c]; [apply exec_app|reflexivity]. Qed.

Lemma and_then_nil (o : outcome) : and_then o [] = o.
Proof. now destruct o. Qed.

Lemma fold_and_then_concat (rs : list program) (o : outcome) :
  fold_left and_then rs o = and_then o (concat rs).
Proof.
  revert o; induction rs as [|r rs IH]; intros o; cbn [fold_left concat].
  - now rewrite and_then_nil.
  - now rewrite IH, and_then_app.
Qed.

(** The run is a left fold of the statements, and of the eight rules,
    in which an exception is carried to the end. *)
Lemma run_is_fold (x : str) :
  run x = fold_left step script (Finished x) /\
  run x = pipeline_fold rules x.
Proof.
  split; [apply exec_fold_step|].
  unfold pipeline_fold. rewrite fold_and_then_concat. reflexivity.
Qed.

(** C4 (the code departs from it): on [late_sample] rules 1-4 each take
    the output of the one before and leave the text as it is; rule 5
    raises; rules 6-8 never receive a buffer, so the comment that rule 6
    deletes is still there when the run stops.  Applied in order to the
    output of rule 4, rules 6-8 would give [plain_text]. *)
Theorem rules_6_to_8_never_applied :
  pipeline_fold [rule1; rule2; rule3; rule4] late_sample
  = Finished late_sample /\
  pipeline_fold rules late_sample
  = Raised (BadEscape (ord "d")) 55 late_sample /\
  run late_sample = Raised (BadEscape (ord "d")) 55 late_sample /\
  stmt_matches (Replace (codes "// Removed unused state variables for bet tracking" ++ [NL]) [])
    late_sample = true /\
  pipeline_fold [rule6; rule7; rule8] late_sample = Finished plain_text.
Proof.
  assert (E : run late_sample = Raised (BadEscape (ord "d")) 55 late_sample)
    by (vm_compute; reflexivity).
  split; [vm_compute; reflexivity|].
  split; [rewrite <- (proj2 (run_is_fold late_sample)); exact E|].
  split; [exact E|].
  split; vm_compute; reflexivity.
Qed.

(** ** One outcome per input, whatever the caches hold *)

Lemma str_eqb_eq (a b : str) : str_eqb a b = true -> a = b.
Proof.
  revert b; induction a as [|x a IH]; intros [|y b] H;
    try reflexivity; try discriminate.
  cbn [str_eqb] in H. apply andb_true_iff in H as [H1 H2].
  apply chr_eqb_eq in H1. subst y. now rewrite (IH b H2).
Qed.

Lemma key_eqb_eq (k l : key) : key_eqb k l = true -> k = l.
Proof.
  destruct k as [p f], l as [q g]. unfold key_eqb. cbn [fst snd].
  intros H. apply andb_true_iff in H as [H1 H2].
  apply str_eqb_eq in H1. subst q.
  destruct f, g; try discriminate; reflexivity.
Qed.

Lemma tkey_eqb_eq (k l : str * key) : tkey_eqb k l = true -> k = l.
Proof.
  destruct k as [r k], l as [s l]. unfold tkey_eqb. cbn [fst snd].
  intros H. apply andb_true_iff in H as [H1 H2].
  apply str_eqb_eq in H1. apply key_eqb_eq in H2. now subst.
Qed.

Section CacheFacts.

Context {K V : Type} (eqb : K -> K -> bool) (P : K * V -> Prop).
Hypothesis eqb_eq : forall k l, eqb k l = true -> k = l.

Lemma lookup_holds (k : K) (v : V) (c : list (K * V)) :
  Forall P c -> lookup eqb k c = Some v -> P (k, v).
Proof.
  induction 1 as [|[k' v'] c Hx _ IH]; cbn [lookup]; [discriminate|].
  destruct (eqb k k') eqn:E; [|exact IH].
  intros H. injection H as <-. now rewrite (eqb_eq _ _ E).
Qed.

Lemma drop_key_holds (k : K) (c : list (K * V)) :
  Forall P c -> Forall P (drop_key eqb k c).
Proof.
  induction 1 as [|[k' v'] c Hx _ IH]; cbn [drop_key]; [constructor|].
  destruct (eqb k k'); [exact IH|now constructor].
Qed.

Lemma make_room_holds (c : list (K * V)) :
  Forall P c -> Forall P (make_room c).
Proof.
  intros H. unfold make_room. destruct (MAXCACHE <=? length c); [|exact H].
  destruct H; [constructor|assumption].
Qed.

Lemma add_holds (e : K * V) (c : list (K * V)) :
  Forall P c -> P e -> Forall P (c ++ [e]).
Proof.
  intros H He. apply Forall_app. split; [exact H|]. now constructor.
Qed.

End CacheFacts.

(** A consistent pattern cache answers as [re.compile] does and stays
    consistent. *)
Lemma compile_cached_spec (c : pattern_cache) (pat : str) (f : flags) :
  Forall holds_compiled c ->
  match compile pat f with Err (OutsideFragment _) => false | _ => true end
  = true ->
  snd (compile_cached c pat f) = compile pat f /\
  Forall holds_compiled (fst (compile_cached c pat f)).
Proof.
  intros Hc Hin. unfold compile_cached.
  destruct (lookup key_eqb (pat, f) c) as [p|] eqn:L.
  - pose proof (lookup_holds key_eqb holds_compiled key_eqb_eq _ _ _ Hc L)
      as Hp.
    unfold holds_compiled in Hp. cbn [fst snd] in *.
    destruct (compile pat f) as [p0|[]]; try contradiction; try discriminate.
    subst p0. auto.
  - destruct (compile pat f) as [p|e] eqn:E; cbn [fst snd]; [|auto].
    split; [reflexivity|].
    apply add_holds; [now apply make_room_holds|].
    unfold holds_compiled. cbn [fst snd]. now rewrite E.
Qed.

Lemma template_cached_spec (c : template_cache) (repl : str) (k : key) :
  Forall holds_parsed c ->
  match parse_template repl with Err (OutsideFragment _) => false | _ => true end
  = true ->
  snd (template_cached c repl k) = template repl /\
  Forall holds_parsed (fst (template_cached c repl k)).
Proof.
  intros Hc Hin. unfold template_cached, template.
  destruct (existsb (chr_eqb BACKSLASH) repl); [|auto].
  destruct (lookup tkey_eqb (repl, k) c) as [r|] eqn:L.
  - pose proof (lookup_holds tkey_eqb holds_parsed tkey_eqb_eq _ _ _ Hc L)
      as Hp.
    unfold holds_parsed in Hp. cbn [fst snd] in *.
    destruct (parse_template repl) as [r0|[]] eqn:E;
      try contradiction; try discriminate.
    subst r0. split; [reflexivity|].
    apply add_holds; [now apply drop_key_holds|].
    unfold holds_parsed. cbn [fst snd]. now rewrite E.
  - destruct (parse_template repl) as [r|e] eqn:E; cbn [fst snd]; [|auto].
    split; [reflexivity|].
    apply add_holds; [now apply make_room_holds|].
    unfold holds_parsed. cbn [fst snd]. now rewrite E.
Qed.

Lemma exec_stmt_cached_spec (c : caches) (st : stmt) (s : str) :
  consistent c -> stmt_in_fragment st = true ->
  snd (exec_stmt_cached c st s) = exec_stmt st s /\
  consistent (fst (exec_stmt_cached c st s)).
Proof.
  intros [Hp Ht] Hin. destruct st as [old new|pat repl f].
  - split; [reflexivity|now split].
  - cbn [stmt_in_fragment] in Hin. apply andb_true_iff in Hin as [H1 H2].
    cbn [exec_stmt_cached exec_stmt]. unfold sub_cached, Re.sub.
    destruct (compile_cached_spec (patterns c) pat f Hp H1) as [Ec Hc].
    destruct (compile_cached (patterns c) pat f) as [pc rp].
    cbn [fst snd] in *. subst rp.
    destruct (compile pat f) as [p|e]; cbn [bind fst snd];
      [|split; [reflexivity|now split]].
    destruct (template_cached_spec (templates c) repl (pat, f) Ht H2)
      as [Et Htc].
    destruct (template_cached (templates c) repl (pat, f)) as [tc rr].
    cbn [fst snd] in *. subst rr.
    destruct (template repl) as [r|e]; cbn [bind fst snd];
      split; try reflexivity; now split.
Qed.

Lemma exec_cached_spec (c : caches) (prog : program) (x : str) :
  consistent c ->
  forallb (fun ls => stmt_in_fragment (snd ls)) prog = true ->
  snd (exec_cached c prog x) = exec prog x /\
  consistent (fst (exec_cached c prog x)).
Proof.
  revert c x; induction prog as [|[line st] prog IH]; intros c x Hc Hin.
  - split; [reflexivity|exact Hc].
  - cbn [forallb snd] in Hin. apply andb_true_iff in Hin as [H1 H2].
    cbn [exec_cached exec].
    destruct (exec_stmt_cached_spec c st x Hc H1) as [E Hc'].
    destruct (exec_stmt_cached c st x) as [c' r]. cbn [fst snd] in *.
    subst r. destruct (exec_stmt st x) as [x'|e]; [now apply IH|].
    split; [reflexivity|exact Hc'].
Qed.

Lemma script_in_fragment :
  forallb (fun ls => stmt_in_fragment (snd ls)) script = true.
Proof. vm_compute. reflexivity. Qed.

(** C5: two executions of lines 10-67 on the same input text end with the
    same outcome whatever the caches of [re] hold at the start of each:
    the outcome is the one the input alone decides. *)
Theorem run_independent_of_caches (c1 c2 : caches) (x : str) :
  consistent c1 -> consistent c2 ->
  snd (run_cached c1 x) = snd (run_cached c2 x) /\
  snd (run_cached c1 x) = run x.
Proof.
  intros H1 H2. unfold run_cached, run.
  destruct (exec_cached_spec c1 script x H1 script_in_fragment) as [E1 _].
  destruct (exec_cached_spec c2 script x H2 script_in_fragment) as [E2 _].
  split; congruence.
Qed.

Lemma run_independent_of_caches_witness :
  consistent empty /\ consistent warm /\
  snd (run_cached empty two_imports) = snd (run_cached warm two_imports) /\
  snd (run_cached empty two_imports) = run two_imports.
Proof.
  assert (H1 : consistent empty) by (split; constructor).
  assert (H2 : consistent warm).
  { split; (constructor; [vm_compute; reflexivity|constructor]). }
  split; [exact H1|]. split; [exact H2|].
  exact (run_independent_of_caches empty warm two_imports H1 H2).
Defined.

(** ** Totality (C9) *)

(** C9 (the code departs from it): on every input the rewrite sequence
    raises at line 55 and never returns a string.  Rules 1-4 finish; the
    call of line 55 raises "bad escape \d" while it compiles its
    replacement. *)
Theorem run_always_raises (x : str) :
  exists c, run x = Raised (BadEscape (ord "d")) 55 c /\
            forall y, run x <> Finished y.
Proof.
  destruct (run_stops_at_55 x) as (c & _ & E & _).
  exists c. split; [exact E|]. intros y. rewrite E. discriminate.
Qed.

(** ** No-op safety (C3) and absent matches (C6) *)

(** On a buffer where no matcher occurs the run still stops at line 55;
    the buffer is unchanged up to there. *)
Lemma nomatch_run_raises (x : str) :
  no_matcher_occurs script x = true ->
  run x = Raised (BadEscape (ord "d")) 55 x.
Proof.
  intros H. destruct (run_stops_at_55 x) as (c & _ & E & _ & Hid).
  rewrite E. f_equal. apply Hid.
  unfold no_matcher_occurs in *. rewrite script_split, forallb_app in H.
  now apply andb_true_iff in H as [H _].
Qed.

(** C3 (the code departs from it): [plain_text] contains none of the
    seventeen matchers, yet the run does not return it: it raises at line
    55, and [main] reports the exception.  Without the statement of line
    55 the text would come back unchanged. *)
Theorem nomatch_input_raises :
  no_matcher_occurs script plain_text = true /\
  run plain_text = Raised (BadEscape (ord "d")) 55 plain_text /\
  snd (main plain_text) <> Finished plain_text /\
  exec deletions plain_text = Finished plain_text.
Proof.
  assert (H : no_matcher_occurs script plain_text = true)
    by (vm_compute; reflexivity).
  split; [exact H|]. split; [now apply nomatch_run_raises|]. split.
  - unfold main, main_of.
    replace (universal_newlines plain_text) with plain_text
      by (vm_compute; reflexivity).
    fold (run plain_text).
    rewrite (nomatch_run_raises _ H). discriminate.
  - vm_compute. reflexivity.
Qed.

(** Every deletion statement returns the buffer as it was when its
    matcher does not occur in it. *)
Lemma deletions_absent_noop (line : nat) (st : stmt) (s : str) :
  In (line, st) deletions ->
  stmt_matches st s = false -> exec_stmt st s = Ok s.
Proof.
  intros Hin Hm.
  assert (Hd : is_deletion st = true).
  { exact (proj1 (forallb_forall _ _) deletions_are_deletions _ Hin). }
  destruct (deletion_stmt st s Hd) as (s' & E & _ & Hid & _).
  rewrite E. f_equal. now apply Hid.
Qed.


(** C6 (the code departs from it at line 55): the matcher of line 55 does
    not occur in [plain_text], and the statement raises on it; so does it
    on every buffer.  The sixteen other statements return the buffer
    unchanged when their matcher is absent. *)
Theorem absent_match_raises_at_55 :
  stmt_matches stmt55 plain_text = false /\
  exec_stmt stmt55 plain_text = Err (BadEscape (ord "d")) /\
  (forall s, exec_stmt stmt55 s = Err (BadEscape (ord "d"))) /\
  (forall line st s,
      In (line, st) deletions ->
      stmt_matches st s = false -> exec_stmt st s = Ok s).
Proof.
  split; [vm_compute; reflexivity|].
  split; [apply stmt55_raises|].
  split; [exact stmt55_raises|exact deletions_absent_noop].
Qed.

(** ** Lengths (C10) *)

Lemma script_lines (P : nat * stmt -> Prop) :
  Forall P script -> forall line st, In (line, st) script -> P (line, st).
Proof. intros H line st Hin. exact (proj1 (Forall_forall P script) H _ Hin). Qed.

(** C10: every statement of the sequence except the one at line 55 has
    the empty replacement, and on every buffer it returns a buffer that is
    not longer; the statement at line 55 is the only one with a non-empty
    replacement. *)
Theorem deletion_rules_never_lengthen (line : nat) (st : stmt) :
  In (line, st) script ->
  (line <> 55 ->
   stmt_repl st = [] /\
   forall s, exists s', exec_stmt st s = Ok s' /\ length s' <= length s) /\
  (line = 55 -> st = stmt55 /\ stmt_repl st <> []).
Proof.
  revert line st.
  apply (script_lines
           (fun ls =>
              (fst ls <> 55 ->
               stmt_repl (snd ls) = [] /\
               forall s, exists s',
                   exec_stmt (snd ls) s = Ok s' /\ length s' <= length s) /\
              (fst ls = 55 -> snd ls = stmt55 /\ stmt_repl (snd ls) <> []))).
  unfold script, rule1, rule2, rule3, rule4, rule5, rule6, rule7, rule8.
  cbn [app].
  repeat (apply Forall_cons;
          [cbn [fst snd]; split;
           [first
              [ intros H; exfalso; apply H; reflexivity
              | intros _; split; [reflexivity|]; intros s;
                match goal with
                | |- exists s', exec_stmt ?st s = Ok s' /\ _ =>
                    let H := fresh in
                    assert (H : is_deletion st = true)
                      by (vm_compute; reflexivity);
                    destruct (deletion_stmt st s H) as (s' & E & Hlen & _ & _);
                    exists s'; split; assumption
                end ]
           |first
              [ intros H; discriminate H
              | intros _; split; [reflexivity|vm_compute; discriminate] ]]
          |]).
  apply Forall_nil.
Qed.

Lemma deletion_rules_never_lengthen_witness :
  In (10, Replace import_line []) script /\
  10 <> 55 /\
  stmt_repl (Replace import_line []) = [] /\
  forall s, exists s',
      exec_stmt (Replace import_line []) s = Ok s' /\ length s' <= length s.
Proof.
  assert (H : In (10, Replace import_line []) script) by (left; reflexivity).
  assert (N : 10 <> 55) by lia.
  split; [exact H|]. split; [exact N|].
  exact (proj1 (deletion_rules_never_lengthen 10 (Replace import_line []) H) N).
Defined.

(** ** The import rule (C2) *)

(** Against C2 as stated: with the import line twice in the input, line
    10 deletes both copies; none is left when the run stops. *)
Lemma import_removed_twice :
  exec rule1 two_imports = Finished plain_text /\
  occurs import_line plain_text = false /\
  run two_imports = Raised (BadEscape (ord "d")) 55 plain_text.
Proof. vm_compute. repeat split. Qed.

Lemma import_line_nonempty : import_line <> [].
Proof. discriminate. Qed.

(** C2, amended: line 10 has no one-shot mode.  [str.replace] scans the
    buffer from the left and deletes every occurrence of the import line
    it meets: an occurrence at the head is dropped and the scan goes on
    after it; a character where no occurrence starts is kept and the scan
    goes on after it. *)
Theorem import_removed_everywhere (s : str) :
  exec rule1 s = Finished (str_replace import_line [] s) /\
  str_replace import_line [] (import_line ++ s) = str_replace import_line [] s /\
  (forall c : char,
      starts_with import_line (c :: s) = false ->
      str_replace import_line [] (c :: s) = c :: str_replace import_line [] s).
Proof.
  split; [reflexivity|]. split.
  - exact (replace_scan_hit import_line [] s import_line_nonempty).
  - intros c H. exact (replace_scan_miss import_line [] c s H).
Qed.

Lemma import_removed_everywhere_witness :
  starts_with import_line (ord "x" :: plain_text) = false /\
  str_replace import_line [] (ord "x" :: plain_text)
  = ord "x" :: str_replace import_line [] plain_text.
Proof.
  assert (H : starts_with import_line (ord "x" :: plain_text) = false)
    by (vm_compute; reflexivity).
  split; [exact H|].
  exact (proj2 (proj2 (import_removed_everywhere plain_text)) (ord "x") H).
Defined.

(** ** Idempotence (C1) *)

(** Against C1 as stated: on [nested_import] the run returns no text at
    all; and the deletion statements alone, applied to their own output,
    change it again (deleting the inner copy of the import line joins the
    two halves of the outer one). *)
Lemma run_not_idempotent :
  (~ exists y, run nested_import = Finished y /\ run y = Finished y) /\
  exec deletions nested_import = Finished import_line /\
  exec deletions import_line = Finished [] /\
  import_line <> [].
Proof.
  split.
  - intros (y & E & _).
    destruct (run_always_raises nested_import) as (c & _ & H).
    exact (H y E).
  - vm_compute. repeat split. discriminate.
Qed.

(** C1, amended: for every input, applying the deletion statements (all
    statements but line 55) to their own output returns that output
    unchanged exactly when it contains none of their matchers. *)
Theorem deletions_idempotent_iff_clean (x y : str) :
  exec deletions x = Finished y ->
  (exec deletions y = Finished y <-> no_matcher_occurs deletions y = true).
Proof.
  intros _.
  destruct (exec_deletions deletions y deletions_are_deletions)
    as (z & E & _ & Hid & Hkeep).
  rewrite E. split.
  - intros H. injection H as ->. now apply Hkeep.
  - intros H. f_equal. now apply Hid.
Qed.

Lemma deletions_idempotent_iff_clean_witness :
  exec deletions two_imports = Finished plain_text /\
  (exec deletions plain_text = Finished plain_text <->
   no_matcher_occurs deletions plain_text = true).
Proof.
  assert (H1 : exec deletions two_imports = Finished plain_text)
    by (vm_compute; reflexivity).
  split; [exact H1|].
  exact (deletions_idempotent_iff_clean two_imports plain_text H1).
Defined.

(** ** Errors and the buffer (C8) *)



(** ** Block rules (C7) *)

Section BlockFacts.

Variable ban : option nat.

Lemma chr_eqb_sym (a b : char) : chr_eqb a b = chr_eqb b a.
Proof. apply N.eqb_sym. Qed.

Lemma lits_cons (c : char) (L : str) (q : pattern) :
  lits (c :: L) ++ q = ONE (LITERAL c) :: (lits L ++ q).
Proof. reflexivity. Qed.

(** A literal text at the head of the pattern and of the string. *)
Lemma match_lits (L : str) (q : pattern) (t : str) :
  match_here ban (lits L ++ q) (L ++ t) = match_here ban q t.
Proof.
  induction L as [|c L IH]; [reflexivity|].
  rewrite lits_cons, match_here_one. cbn [app atom_match].
  now rewrite chr_eqb_refl.
Qed.

Lemma match_lits_fail (L : str) (q : pattern) (s : str) :
  starts_with L s = false -> match_here ban (lits L ++ q) s = None.
Proof.
  revert s; induction L as [|a L IH]; intros s H; [discriminate|].
  rewrite lits_cons, match_here_one.
  destruct s as [|b s]; [reflexivity|].
  cbn [starts_with atom_match] in *. rewrite chr_eqb_sym.
  destruct (chr_eqb a b); [|reflexivity].
  apply IH. exact H.
Qed.

End BlockFacts.

Lemma starts_with_longer (p x t : str) :
  starts_with p x = false -> length p <= length x ->
  starts_with p (x ++ t) = false.
Proof.
  revert x; induction p as [|a p IH]; intros x H Hlen; [discriminate|].
  destruct x as [|b x]; [cbn in Hlen; lia|].
  cbn [app starts_with] in *.
  destruct (chr_eqb a b); [|reflexivity].
  apply IH; [exact H|cbn in Hlen; lia].
Qed.

Lemma find_later (p : str) (c : char) (u : str) (n : nat) :
  find p (c :: u) = Some (S n) ->
  starts_with p (c :: u) = false /\ find p u = Some n.
Proof.
  cbn [find]. destruct (starts_with p (c :: u)); [discriminate|].
  destruct (find p u) as [k|]; cbn; [|discriminate].
  intros H. injection H as ->. auto.
Qed.

(** Under DOTALL, a lazy [.*?] before a literal text goes to the first
    occurrence of that text when the rest of the pattern matches there. *)
Lemma lazy_to_literal (ban : option nat) (T : str) (q : pattern)
  (m t r : str) :
  find T (m ++ T) = Some (length m) ->
  match_here ban q t = Some r ->
  match_here ban (MIN_REPEAT ANY_ALL :: lits T ++ q) (m ++ T ++ t) = Some r.
Proof.
  intros Hf Hq. induction m as [|c m IH].
  - rewrite match_here_lazy. cbn [app]. now rewrite match_lits, Hq.
  - cbn [app length] in Hf. apply find_later in Hf as [H1 H2].
    rewrite match_here_lazy.
    change ((c :: m) ++ T ++ t) with (c :: m ++ T ++ t).
    rewrite match_lits_fail.
    + cbn [atom_match]. exact (IH H2).
    + change (c :: m ++ T ++ t) with ((c :: m) ++ T ++ t).
      rewrite app_assoc. apply starts_with_longer; [exact H1|].
      cbn [app length]. rewrite length_app. lia.
Qed.

(** [re.sub] copies the text before the first occurrence of the literal
    text its pattern begins with. *)
Lemma scan_to_literal (L : str) (q : pattern) (repl a t : str) :
  find L (a ++ L) = Some (length a) ->
  sub_scan (lits L ++ q) repl 0 (a ++ L ++ t)
  = a ++ sub_scan (lits L ++ q) repl 0 (L ++ t).
Proof.
  induction a as [|c a IH]; intros Hf; [reflexivity|].
  cbn [app length] in Hf. apply find_later in Hf as [H1 H2].
  cbn [app]. rewrite sub_scan_miss.
  - now rewrite (IH H2).
  - apply match_lits_fail.
    change (c :: a ++ L ++ t) with ((c :: a) ++ L ++ t).
    rewrite app_assoc. apply starts_with_longer; [exact H1|].
    cbn [app length]. rewrite length_app. lia.
Qed.

Lemma sub_scan_replace (p : pattern) (repl s r : str) :
  match_here None p s = Some r -> length r < length s ->
  sub_scan p repl 0 s = repl ++ sub_scan p repl 0 r.
Proof.
  intros H Hlen. destruct (match_here_suffix _ _ _ _ H) as [m ->].
  apply sub_scan_hit; [|exact H].
  intros ->. cbn in Hlen. lia.
Qed.

Lemma compile_stmt18 :
  compile (codes "console\.log\(\'Time field variations:\',.*?\);\n.*?\);\n") DOTALL
  = Ok (lits time_prefix ++ MIN_REPEAT ANY_ALL :: lits call_end
          ++ MIN_REPEAT ANY_ALL :: lits call_end ++ []).
Proof. vm_compute. reflexivity. Qed.

(** Line 18 on any text where the prefix is followed by two terminators:
    the text from the first occurrence of the prefix to the second
    terminator after it is removed; what follows is rewritten on its own. *)
Lemma time_fields_removed (a m1 m2 rest : str) :
  find time_prefix (a ++ time_prefix) = Some (length a) ->
  find call_end (m1 ++ call_end) = Some (length m1) ->
  find call_end (m2 ++ call_end) = Some (length m2) ->
  exists r,
    exec_stmt stmt18 rest = Ok r /\
    exec_stmt stmt18
      (a ++ time_prefix ++ m1 ++ call_end ++ m2 ++ call_end ++ rest)
    = Ok (a ++ r).
Proof.
  intros Ha H1 H2. unfold stmt18. cbn [exec_stmt]. unfold Re.sub.
  rewrite compile_stmt18. cbn [bind]. rewrite template_nil. cbn [bind].
  eexists. split; [reflexivity|]. f_equal.
  rewrite scan_to_literal by exact Ha. f_equal.
  apply (sub_scan_replace _ [] _ rest).
  - rewrite match_lits.
    apply lazy_to_literal; [exact H1|].
    apply lazy_to_literal; [exact H2|].
    reflexivity.
  - rewrite !length_app. unfold time_prefix. cbn [length codes]. lia.
Qed.

Lemma space_match (c : char) : atom_match SPACES c = is_space c.
Proof. cbn. apply orb_false_r. Qed.

Lemma indented_text_app (u v : str) :
  indented_text u = true -> indented_text (u ++ v) = true.
Proof.
  induction u as [|c u IH]; [discriminate|].
  cbn [app indented_text]. destruct (is_space c); [|reflexivity].
  intros H. apply andb_true_iff in H as [H1 H2].
  now rewrite H1, (IH H2).
Qed.

Section GreedyFacts.

Variable ban : option nat.
Variable q : pattern.

(** A greedy [a*] over a run of [a]-characters that ends before a
    character [a] does not match: the rest of the pattern is tried right
    after the run first. *)
Lemma greedy_run (a : atom) (w t r : str) :
  forallb (atom_match a) w = true ->
  match t with [] => true | c :: _ => negb (atom_match a c) end = true ->
  match_here ban q t = Some r ->
  match_here ban (MAX_REPEAT a :: q) (w ++ t) = Some r.
Proof.
  intros Hw Ht Hq. induction w as [|c w IH].
  - cbn [app]. rewrite match_here_greedy.
    destruct t as [|c t]; [exact Hq|].
    apply negb_true_iff in Ht. now rewrite Ht.
  - cbn [forallb] in Hw. apply andb_true_iff in Hw as [Hc Hw].
    cbn [app]. rewrite match_here_greedy, Hc. now rewrite (IH Hw).
Qed.

(** [\s*\n] finds no newline in indentation that is followed by text. *)
Lemma spaces_newline_fail (t : str) :
  indented_text t = true ->
  match_here ban (MAX_REPEAT SPACES :: ONE (LITERAL NL) :: q) t = None.
Proof.
  induction t as [|c t IH]; [discriminate|].
  cbn [indented_text]. rewrite match_here_greedy, space_match.
  destruct (is_space c) eqn:Hs.
  - intros H. apply andb_true_iff in H as [H1 H2].
    rewrite (IH H2), match_here_one. cbn [atom_match].
    apply negb_true_iff in H1. now rewrite H1.
  - intros _. rewrite match_here_one. cbn [atom_match].
    destruct (chr_eqb c NL) eqn:E; [|reflexivity].
    apply chr_eqb_eq in E. subst c. discriminate.
Qed.

(** [\s*\n] over whitespace goes to the last newline before the text. *)
Lemma spaces_to_last_newline (w t r : str) :
  forallb is_space w = true ->
  indented_text t = true ->
  match_here ban q t = Some r ->
  match_here ban (MAX_REPEAT SPACES :: ONE (LITERAL NL) :: q) (w ++ NL :: t)
  = Some r.
Proof.
  intros Hw Ht Hq. induction w as [|c w IH].
  - cbn [app]. rewrite match_here_greedy, space_match.
    change (is_space NL) with true. cbv iota.
    rewrite (spaces_newline_fail t Ht), match_here_one.
    cbn [atom_match]. now rewrite chr_eqb_refl.
  - cbn [forallb] in Hw. apply andb_true_iff in Hw as [Hc Hw].
    cbn [app]. rewrite match_here_greedy, space_match, Hc.
    now rewrite (IH Hw).
Qed.

End GreedyFacts.

Lemma forallb_spaces (w : str) :
  forallb is_space w = true -> forallb (atom_match SPACES) w = true.
Proof.
  induction w as [|c w IH]; [reflexivity|].
  cbn [forallb]. rewrite space_match. intros H.
  apply andb_true_iff in H as [H1 H2]. now rewrite H1, (IH H2).
Qed.

Lemma compile_stmt64 :
  compile (codes "// Increment reloadKey to force BetCard to reload\s*\n\s*setReloadKey\(prev => \{\s*\n.*?\n.*?\n\s*\}\);\s*\n") DOTALL
  = Ok (lits reload_comment ++
        MAX_REPEAT SPACES :: ONE (LITERAL NL) :: MAX_REPEAT SPACES ::
        lits setter_open ++
        MAX_REPEAT SPACES :: ONE (LITERAL NL) ::
        MIN_REPEAT ANY_ALL :: lits [NL] ++
        MIN_REPEAT ANY_ALL :: lits [NL] ++
        MAX_REPEAT SPACES :: lits setter_close ++
        MAX_REPEAT SPACES :: ONE (LITERAL NL) :: []).
Proof. vm_compute. reflexivity. Qed.

Ltac start_sub compile_lemma :=
  cbn [exec_stmt]; unfold Re.sub;
  rewrite compile_lemma; cbn [bind]; rewrite template_nil; cbn [bind];
  eexists; split; [reflexivity|]; f_equal.

Ltac shorter :=
  repeat (rewrite length_app || cbn [length]); lia.

(** Line 64 on a reloadKey block with a body of two lines: the block is
    removed together with all the whitespace after its closing, up to the
    last newline before the next text. *)
Lemma reload_block_removed (a w1 i1 w2 x1 x2 w3 w4 rest : str) :
  find reload_comment (a ++ reload_comment) = Some (length a) ->
  forallb is_space w1 = true ->
  forallb is_space i1 = true ->
  indented_text (i1 ++ setter_open) = true ->
  forallb is_space w2 = true ->
  indented_text x1 = true ->
  find [NL] (x1 ++ [NL]) = Some (length x1) ->
  find [NL] (x2 ++ [NL]) = Some (length x2) ->
  forallb is_space w3 = true ->
  forallb is_space w4 = true ->
  indented_text rest = true ->
  exists r,
    exec_stmt stmt64 rest = Ok r /\
    exec_stmt stmt64
      (a ++ reload_comment ++ w1 ++ NL :: i1 ++ setter_open ++ w2 ++ NL ::
       x1 ++ NL :: x2 ++ NL :: w3 ++ setter_close ++ w4 ++ NL :: rest)
    = Ok (a ++ r).
Proof.
  intros Ha Hw1 Hi1 Hi1' Hw2 Hx1 Hx1' Hx2 Hw3 Hw4 Hrest.
  unfold stmt64. start_sub compile_stmt64.
  rewrite scan_to_literal by exact Ha. f_equal.
  apply (sub_scan_replace _ [] _ rest); [|shorter].
  rewrite match_lits.
  apply spaces_to_last_newline; [exact Hw1| |].
  { rewrite app_assoc. now apply indented_text_app. }
  apply greedy_run; [now apply forallb_spaces|reflexivity|].
  rewrite match_lits.
  apply spaces_to_last_newline; [exact Hw2|now apply indented_text_app|].
  apply (lazy_to_literal None [NL] _ x1 _ rest Hx1').
  apply (lazy_to_literal None [NL] _ x2 _ rest Hx2).
  apply greedy_run; [now apply forallb_spaces|reflexivity|].
  rewrite match_lits.
  apply spaces_to_last_newline; [exact Hw4|exact Hrest|reflexivity].
Qed.

Lemma compile_stmt24 :
  compile (codes "// Debug logs for troubleshooting\s*\n\s*useEffect\(\(\) => \{\s*\n.*?console\.log.*?\n.*?console\.log.*?\n.*?console\.log.*?\n\s*\}, \[picks, loading, error\]\);\n") DOTALL
  = Ok (lits debug_comment ++
        MAX_REPEAT SPACES :: ONE (LITERAL NL) :: MAX_REPEAT SPACES ::
        lits effect_open ++
        MAX_REPEAT SPACES :: ONE (LITERAL NL) ::
        MIN_REPEAT ANY_ALL :: lits console_log ++
        MIN_REPEAT ANY_ALL :: lits [NL] ++
        MIN_REPEAT ANY_ALL :: lits console_log ++
        MIN_REPEAT ANY_ALL :: lits [NL] ++
        MIN_REPEAT ANY_ALL :: lits console_log ++
        MIN_REPEAT ANY_ALL :: lits [NL] ++
        MAX_REPEAT SPACES :: lits effect_close ++ []).
Proof. vm_compute. reflexivity. Qed.

(** Line 24 on a debug effect with three log lines: the effect is removed
    up to the first closing line after them; what follows, later closing
    lines included, is rewritten on its own. *)
Lemma debug_effect_removed
  (a w1 i1 w2 b1 c1 b2 c2 b3 c3 w3 rest : str) :
  find debug_comment (a ++ debug_comment) = Some (length a) ->
  forallb is_space w1 = true ->
  forallb is_space i1 = true ->
  indented_text (i1 ++ effect_open) = true ->
  forallb is_space w2 = true ->
  indented_text (b1 ++ console_log) = true ->
  find console_log (b1 ++ console_log) = Some (length b1) ->
  find [NL] (c1 ++ [NL]) = Some (length c1) ->
  find console_log (b2 ++ console_log) = Some (length b2) ->
  find [NL] (c2 ++ [NL]) = Some (length c2) ->
  find console_log (b3 ++ console_log) = Some (length b3) ->
  find [NL] (c3 ++ [NL]) = Some (length c3) ->
  forallb is_space w3 = true ->
  exists r,
    exec_stmt stmt24 rest = Ok r /\
    exec_stmt stmt24
      (a ++ debug_comment ++ w1 ++ NL :: i1 ++ effect_open ++ w2 ++ NL ::
       b1 ++ console_log ++ c1 ++ NL ::
       b2 ++ console_log ++ c2 ++ NL ::
       b3 ++ console_log ++ c3 ++ NL ::
       w3 ++ effect_close ++ rest)
    = Ok (a ++ r).
Proof.
  intros Ha Hw1 Hi1 Hi1' Hw2 Hb1' Hb1 Hc1 Hb2 Hc2 Hb3 Hc3 Hw3.
  unfold stmt24. start_sub compile_stmt24.
  rewrite scan_to_literal by exact Ha. f_equal.
  apply (sub_scan_replace _ [] _ rest); [|shorter].
  rewrite match_lits.
  apply spaces_to_last_newline; [exact Hw1| |].
  { rewrite app_assoc. now apply indented_text_app. }
  apply greedy_run; [now apply forallb_spaces|reflexivity|].
  rewrite match_lits.
  apply spaces_to_last_newline; [exact Hw2| |].
  { rewrite app_assoc. now apply indented_text_app. }
  apply (lazy_to_literal None console_log _ b1 _ rest Hb1).
  apply (lazy_to_literal None [NL] _ c1 _ rest Hc1).
  apply (lazy_to_literal None console_log _ b2 _ rest Hb2).
  apply (lazy_to_literal None [NL] _ c2 _ rest Hc2).
  apply (lazy_to_literal None console_log _ b3 _ rest Hb3).
  apply (lazy_to_literal None [NL] _ c3 _ rest Hc3).
  apply greedy_run; [now apply forallb_spaces|reflexivity|].
  rewrite match_lits. reflexivity.
Qed.

(** Against C7 as stated: in [debug_short_sample] the debug effect has
    two log lines and its closing line ends [debug_short_head]; line 24
    does not stop there: it runs on to the second closing line, after the
    third [console.log], and removes [debug_short_tail] too.  In
    [reload_short_sample] the body has one line and line 64 runs past the
    nearest closing to the second one in the same way. *)
Lemma block_rules_pass_nearer_closing :
  debug_short_sample = debug_short_head ++ debug_short_tail ++ plain_text /\
  exec_stmt stmt24 debug_short_sample = Ok plain_text /\
  exec_stmt stmt24 debug_short_sample <> Ok (debug_short_tail ++ plain_text) /\
  reload_short_sample = reload_short_head ++ reload_short_tail ++ plain_text /\
  exec_stmt stmt64 reload_short_sample = Ok plain_text /\
  exec_stmt stmt64 reload_short_sample <> Ok (reload_short_tail ++ plain_text).
Proof.
  assert (E1 : exec_stmt stmt24 debug_short_sample = Ok plain_text)
    by (vm_compute; reflexivity).
  assert (E2 : exec_stmt stmt64 reload_short_sample = Ok plain_text)
    by (vm_compute; reflexivity).
  split; [reflexivity|]. split; [exact E1|].
  split; [rewrite E1; vm_compute; discriminate|].
  split; [reflexivity|]. split; [exact E2|].
  rewrite E2. vm_compute. discriminate.
Qed.

(** C7, amended: the lazy repeats of the DOTALL rules cross line
    boundaries and stop at the nearest place where the rest of the pattern
    matches, which is not always the nearest terminator.  Line 18 removes,
    in every text, what lies between the first occurrence of its prefix
    and the second terminator after it.  Line 24 removes a debug effect
    from its comment to the closing line that follows the line of the
    third [console.log]; whatever stands before that [console.log], an
    earlier closing line included, goes with it.  Line 64 removes a
    reloadKey block up to the closing that follows two lines without a
    newline, a closing on the second of them being passed, and with it the
    whitespace after the closing up to the last newline before the next
    text.  In the three cases the text after the match is rewritten on its
    own. *)
Theorem block_rules_extent :
  (forall a m1 m2 rest : str,
      find time_prefix (a ++ time_prefix) = Some (length a) ->
      find call_end (m1 ++ call_end) = Some (length m1) ->
      find call_end (m2 ++ call_end) = Some (length m2) ->
      exists r,
        exec_stmt stmt18 rest = Ok r /\
        exec_stmt stmt18
          (a ++ time_prefix ++ m1 ++ call_end ++ m2 ++ call_end ++ rest)
        = Ok (a ++ r)) /\
  (forall a w1 i1 w2 b1 c1 b2 c2 b3 c3 w3 rest : str,
      find debug_comment (a ++ debug_comment) = Some (length a) ->
      forallb is_space w1 = true ->
      forallb is_space i1 = true ->
      indented_text (i1 ++ effect_open) = true ->
      forallb is_space w2 = true ->
      indented_text (b1 ++ console_log) = true ->
      find console_log (b1 ++ console_log) = Some (length b1) ->
      find [NL] (c1 ++ [NL]) = Some (length c1) ->
      find console_log (b2 ++ console_log) = Some (length b2) ->
      find [NL] (c2 ++ [NL]) = Some (length c2) ->
      find console_log (b3 ++ console_log) = Some (length b3) ->
      find [NL] (c3 ++ [NL]) = Some (length c3) ->
      forallb is_space w3 = true ->
      exists r,
        exec_stmt stmt24 rest = Ok r /\
        exec_stmt stmt24
          (a ++ debug_comment ++ w1 ++ NL :: i1 ++ effect_open ++ w2 ++ NL ::
           b1 ++ console_log ++ c1 ++ NL ::
           b2 ++ console_log ++ c2 ++ NL ::
           b3 ++ console_log ++ c3 ++ NL ::
           w3 ++ effect_close ++ rest)
        = Ok (a ++ r)) /\
  (forall a w1 i1 w2 x1 x2 w3 w4 rest : str,
      find reload_comment (a ++ reload_comment) = Some (length a) ->
      forallb is_space w1 = true ->
      forallb is_space i1 = true ->
      indented_text (i1 ++ setter_open) = true ->
      forallb is_space w2 = true ->
      indented_text x1 = true ->
      find [NL] (x1 ++ [NL]) = Some (length x1) ->
      find [NL] (x2 ++ [NL]) = Some (length x2) ->
      forallb is_space w3 = true ->
      forallb is_space w4 = true ->
      indented_text rest = true ->
      exists r,
        exec_stmt stmt64 rest = Ok r /\
        exec_stmt stmt64
          (a ++ reload_comment ++ w1 ++ NL :: i1 ++ setter_open ++ w2 ++ NL ::
           x1 ++ NL :: x2 ++ NL :: w3 ++ setter_close ++ w4 ++ NL :: rest)
        = Ok (a ++ r)).
Proof.
  split; [exact time_fields_removed|].
  split; [exact debug_effect_removed|exact reload_block_removed].
Qed.

Lemma block_rules_extent_witness :
  (let a := codes "first();" ++ [NL] in
   let m1 := codes " {" ++ NL :: codes "  raw: pick.time" ++ NL :: codes "}" in
   let m2 := codes "second(" in
   let rest := codes "third();" ++ [NL] in
   find time_prefix (a ++ time_prefix) = Some (length a) /\
   find call_end (m1 ++ call_end) = Some (length m1) /\
   find call_end (m2 ++ call_end) = Some (length m2) /\
   time_sample = a ++ time_prefix ++ m1 ++ call_end ++ m2 ++ call_end ++ rest /\
   exec_stmt stmt18 time_sample = Ok (a ++ rest)) /\
  (let a := codes "first();" ++ [NL] in
   let rest := codes "second();" ++ NL :: codes "  " ++ effect_close in
   exec_stmt stmt24 debug_sample = Ok (a ++ rest)) /\
  (let w4 := [NL] in
   let rest := codes "next();" ++ [NL] in
   forallb is_space w4 = true /\
   indented_text rest = true /\
   exec_stmt stmt64 reload_sample = Ok rest) /\
  (let b3 := codes "  " ++ effect_close ++ codes "keep();" ++ NL :: codes "    " in
   find console_log (b3 ++ console_log) = Some (length b3) /\
   exec_stmt stmt24 debug_short_sample = Ok plain_text) /\
  (let x2 := codes "  " ++ setter_close in
   find [NL] (x2 ++ [NL]) = Some (length x2) /\
   exec_stmt stmt64 reload_short_sample = Ok plain_text).
Proof.
  destruct block_rules_extent as (T18 & T24 & T64).
  split; [|split; [|split; [|split]]].
  - cbv zeta.
    assert (H1 : find time_prefix
                   ((codes "first();" ++ [NL]) ++ time_prefix)
                 = Some (length (codes "first();" ++ [NL])))
      by (vm_compute; reflexivity).
    assert (H2 : find call_end
                   ((codes " {" ++ NL :: codes "  raw: pick.time" ++ NL ::
                     codes "}") ++ call_end)
                 = Some (length (codes " {" ++ NL ::
                                 codes "  raw: pick.time" ++ NL :: codes "}")))
      by (vm_compute; reflexivity).
    assert (H3 : find call_end (codes "second(" ++ call_end)
                 = Some (length (codes "second(")))
      by (vm_compute; reflexivity).
    split; [exact H1|]. split; [exact H2|]. split; [exact H3|].
    split; [reflexivity|].
    destruct (T18 _ _ _ (codes "third();" ++ [NL]) H1 H2 H3) as (r & Er & E).
    vm_compute in Er. injection Er as <-. exact E.
  - cbv zeta.
    assert (X := T24 (codes "first();" ++ [NL]) [] (codes "  ") []
                (codes "    ") (codes "('picks', picks);")
                (codes "    ") (codes "('loading', loading);")
                (codes "    ") (codes "('error', error);")
                (codes "  ")
                (codes "second();" ++ NL :: codes "  " ++ effect_close)).
    repeat (lapply X; [clear X; intro X|vm_compute; reflexivity]).
    destruct X as (r & Er & E).
    vm_compute in Er. injection Er as <-. exact E.
  - cbv zeta.
    assert (H1 : forallb is_space [NL] = true) by (vm_compute; reflexivity).
    assert (H2 : indented_text (codes "next();" ++ [NL]) = true)
      by (vm_compute; reflexivity).
    split; [exact H1|]. split; [exact H2|].
    assert (X := T64 [] [] (codes "  ") [] (codes "    log(prev);")
                (codes "    return prev + 1;") (codes "  ") [NL]
                (codes "next();" ++ [NL])).
    repeat (lapply X; [clear X; intro X|vm_compute; reflexivity]).
    destruct X as (r & Er & E).
    vm_compute in Er. injection Er as <-. exact E.
  - cbv zeta.
    assert (H3 : find console_log
                   ((codes "  " ++ effect_close ++ codes "keep();" ++ NL ::
                     codes "    ") ++ console_log)
                 = Some (length (codes "  " ++ effect_close ++
                                 codes "keep();" ++ NL :: codes "    ")))
      by (vm_compute; reflexivity).
    split; [exact H3|].
    assert (X := T24 [] [] (codes "  ") []
                (codes "    ") (codes "('picks', picks);")
                (codes "    ") (codes "('loading', loading);")
                (codes "  " ++ effect_close ++ codes "keep();" ++ NL ::
                 codes "    ")
                (codes "('later');") (codes "  ") plain_text).
    repeat (lapply X; [clear X; intro X|vm_compute; reflexivity]).
    destruct X as (r & Er & E).
    vm_compute in Er. injection Er as <-. exact E.
  - cbv zeta.
    assert (H3 : find [NL] ((codes "  " ++ setter_close) ++ [NL])
                 = Some (length (codes "  " ++ setter_close)))
      by (vm_compute; reflexivity).
    split; [exact H3|].
    assert (X := T64 [] [] (codes "  ") [] (codes "    return prev + 1;")
                (codes "  " ++ setter_close) (codes "  ") [] plain_text).
    repeat (lapply X; [clear X; intro X|vm_compute; reflexivity]).
    destruct X as (r & Er & E).
    vm_compute in Er. injection Er as <-. exact E.
Defined.

(** * Further properties of the script *)

(** ** The whole script: no write, no summary *)

(** X1: whatever the file holds and whether or not it can be written, the
    script writes nothing and prints nothing: it ends with the read error,
    or with the exception of line 55. *)
Theorem script_changes_nothing (r : read_result) (writable : bool) :
  fst (whole r writable) = [] /\
  snd (whole r writable) =
  match r with
  | ReadFails => ExitReadError
  | ReadText _ => ExitReError (BadEscape (ord "d")) 55
  end.
Proof.
  destruct r as [|content]; [split; reflexivity|].
  destruct (run_stops_at_55 content) as (c & _ & E & _).
  unfold whole. rewrite E. split; reflexivity.
Qed.

(** X2: the statements after line 55 never take part in a run: with any
    statements in their place the outcome is the same. *)
Theorem nothing_runs_after_55 (tail : program) (x : str) :
  exec (rule1 ++ rule2 ++ rule3 ++ rule4 ++ rule5 ++ tail) x = run x.
Proof.
  destruct (run_stops_at_55 x) as (c & E1 & E & _).
  rewrite E.
  replace (rule1 ++ rule2 ++ rule3 ++ rule4 ++ rule5 ++ tail)
    with ((rule1 ++ rule2 ++ rule3 ++ rule4) ++ rule5 ++ tail)
    by (now rewrite <- !app_assoc).
  rewrite exec_app, E1. cbn [and_then rule5 app exec].
  now rewrite stmt55_raises.
Qed.

(** ** Deletions only delete *)

Lemma subsequence_refl (s : str) : subsequence s s.
Proof. induction s; constructor; assumption. Qed.

Lemma subsequence_trans (a b c : str) :
  subsequence a b -> subsequence b c -> subsequence a c.
Proof.
  intros Hab Hbc. revert a Hab.
  induction Hbc as [|x b c _ IH|x b c _ IH]; intros a Hab.
  - exact Hab.
  - inversion Hab; subst.
    + apply subsequence_keep. now apply IH.
    + apply subsequence_drop. now apply IH.
  - apply subsequence_drop. now apply IH.
Qed.

Lemma replace_scan_subsequence (old : str) (k : nat) (s : str) :
  subsequence (replace_scan old [] k s) s.
Proof.
  revert k; induction s as [|c s IH]; intros k; [constructor|].
  cbn [replace_scan]. destruct k as [|k].
  - destruct (starts_with old (c :: s)); cbn [app].
    + apply subsequence_drop, IH.
    + apply subsequence_keep, IH.
  - apply subsequence_drop, IH.
Qed.

Lemma sub_scan_subsequence (p : pattern) (k : nat) (s : str) :
  subsequence (sub_scan p [] k s) s.
Proof.
  revert k; induction s as [|c s IH]; intros k.
  - cbn. destruct (match_here None p []); constructor.
  - cbn [sub_scan].
    destruct k as [|k];
      repeat match goal with
             | |- context [match ?x with _ => _ end] => destruct x
             end;
      cbn [app];
      first [apply subsequence_drop, IH | apply subsequence_keep, IH].
Qed.

Lemma deletion_stmt_subsequence (st : stmt) (s : str) :
  is_deletion st = true ->
  exists s', exec_stmt st s = Ok s' /\ subsequence s' s.
Proof.
  destruct st as [old new|pat repl f]; cbn [is_deletion]; intros H;
    apply andb_true_iff in H as [H1 H2].
  - apply length_zero_nil in H2; subst new.
    destruct old as [|c o]; [discriminate|].
    eexists. split; [reflexivity|]. apply replace_scan_subsequence.
  - apply length_zero_nil in H1; subst repl.
    cbn [exec_stmt]. unfold Re.sub.
    destruct (compile pat f) as [p|e]; [|discriminate].
    cbn [bind]. rewrite template_nil. cbn [bind].
    eexists. split; [reflexivity|]. apply sub_scan_subsequence.
Qed.

Lemma exec_deletions_subsequence (prog : program) (x : str) :
  forallb (fun ls => is_deletion (snd ls)) prog = true ->
  exists y, exec prog x = Finished y /\ subsequence y x.
Proof.
  revert x; induction prog as [|[line st] prog IH]; intros x H.
  - exists x. split; [reflexivity|apply subsequence_refl].
  - cbn [forallb snd] in H. apply andb_true_iff in H as [H1 H2].
    destruct (deletion_stmt_subsequence st x H1) as (s' & E & Hs).
    destruct (IH s' H2) as (y & Ey & Hy).
    exists y. cbn [exec]. rewrite E. split; [exact Ey|].
    now apply subsequence_trans with s'.
Qed.

(** The statements of the script other than line 55 are the deletions. *)
Lemma script_without_55 (line : nat) (st : stmt) :
  In (line, st) script -> line <> 55 -> is_deletion st = true.
Proof.
  intros H N.
  apply (proj1 (forallb_forall _ _) deletions_are_deletions (line, st)).
  unfold script in H. unfold deletions. rewrite !in_app_iff in *.
  destruct H as [H|[H|[H|[H|[H|[H|[H|H]]]]]]]; auto 10.
  destruct H as [H|[]]. injection H as <- _. congruence.
Qed.

(** X3: a statement other than line 55 only leaves characters out: its
    result is a subsequence of its buffer, nothing is added or moved; and
    the buffer a run holds when it stops is a subsequence of the input. *)
Theorem deletions_only_delete :
  (forall line st s,
      In (line, st) script -> line <> 55 ->
      exists s', exec_stmt st s = Ok s' /\ subsequence s' s) /\
  (forall x, exists c,
      run x = Raised (BadEscape (ord "d")) 55 c /\ subsequence c x).
Proof.
  split.
  - intros line st s H N.
    apply deletion_stmt_subsequence. exact (script_without_55 line st H N).
  - intros x.
    destruct (run_stops_at_55 x) as (c & E1 & E & _).
    exists c. split; [exact E|].
    destruct (exec_deletions_subsequence _ x rules_1_to_4_are_deletions)
      as (y & Ey & Hy).
    rewrite E1 in Ey. injection Ey as <-. exact Hy.
Qed.

Lemma deletions_only_delete_witness :
  In (10, Replace import_line []) script /\ 10 <> 55 /\
  exists s', exec_stmt (Replace import_line []) two_imports = Ok s' /\
             subsequence s' two_imports.
Proof.
  assert (H : In (10, Replace import_line []) script) by (left; reflexivity).
  assert (N : 10 <> 55) by lia.
  split; [exact H|]. split; [exact N|].
  exact (proj1 deletions_only_delete 10 _ two_imports H N).
Defined.

(** X4: a statement other than line 55 changes its buffer exactly when
    its matcher occurs in it, and then the result is shorter. *)
Theorem changed_iff_matched (line : nat) (st : stmt) (s : str) :
  In (line, st) script -> line <> 55 ->
  (exec_stmt st s = Ok s <-> stmt_matches st s = false) /\
  (stmt_matches st s = true ->
   exists s', exec_stmt st s = Ok s' /\ length s' < length s).
Proof.
  intros H N.
  destruct (deletion_stmt st s (script_without_55 line st H N))
    as (s' & E & _ & Hid & Hlt).
  rewrite E. split; [split|].
  - intros Hs. injection Hs as ->.
    destruct (stmt_matches st s); [|reflexivity].
    specialize (Hlt eq_refl). lia.
  - intros Hm. f_equal. now apply Hid.
  - intros Hm. exists s'. split; [reflexivity|now apply Hlt].
Qed.

Lemma changed_iff_matched_witness :
  In (10, Replace import_line []) script /\ 10 <> 55 /\
  stmt_matches (Replace import_line []) two_imports = true /\
  exists s', exec_stmt (Replace import_line []) two_imports = Ok s' /\
             length s' < length two_imports.
Proof.
  assert (H : In (10, Replace import_line []) script) by (left; reflexivity).
  assert (N : 10 <> 55) by lia.
  assert (M : stmt_matches (Replace import_line []) two_imports = true)
    by (vm_compute; reflexivity).
  split; [exact H|]. split; [exact N|]. split; [exact M|].
  exact (proj2 (changed_iff_matched 10 _ two_imports H N) M).
Defined.

(** ** The literal replacements *)

Lemma replace_scan_to_first (old new a t : str) :
  old <> [] ->
  find old (a ++ old) = Some (length a) ->
  replace_scan old new 0 (a ++ old ++ t)
  = a ++ new ++ replace_scan old new 0 t.
Proof.
  intros Hne. induction a as [|c a IH]; intros Hf.
  - cbn [app]. now apply replace_scan_hit.
  - cbn [app length] in Hf. apply find_later in Hf as [H1 H2].
    cbn [app]. rewrite replace_scan_miss.
    + now rewrite (IH H2).
    + change (c :: a ++ old ++ t) with ((c :: a) ++ old ++ t).
      rewrite app_assoc. apply starts_with_longer; [exact H1|].
      cbn [app length]. rewrite length_app. lia.
Qed.

Lemma script_replaces_nonempty :
  forallb (fun ls =>
             match snd ls with
             | Replace old _ => negb (Nat.eqb (length old) 0)
             | Sub _ _ _ => true
             end) script = true.
Proof. vm_compute. reflexivity. Qed.

(** X5: each [content.replace] of the script (lines 10, 32, 58, 59, 62)
    copies the text before the first occurrence of its literal, puts the
    replacement in its place and goes on with the text after it. *)
Theorem replace_first_then_rest
  (line : nat) (old new a t : str) :
  In (line, Replace old new) script ->
  find old (a ++ old) = Some (length a) ->
  exists r,
    exec_stmt (Replace old new) t = Ok r /\
    exec_stmt (Replace old new) (a ++ old ++ t) = Ok (a ++ new ++ r).
Proof.
  intros Hin Hf.
  assert (Hne : old <> []).
  { pose proof (proj1 (forallb_forall _ _) script_replaces_nonempty _ Hin) as H.
    cbn [snd] in H. intros ->. discriminate. }
  exists (str_replace old new t). split; [reflexivity|].
  cbn [exec_stmt]. f_equal.
  destruct old as [|c o]; [congruence|].
  now apply replace_scan_to_first.
Qed.

Lemma replace_first_then_rest_witness :
  In (10, Replace import_line []) script /\
  find import_line (plain_text ++ import_line) = Some (length plain_text) /\
  exists r,
    exec_stmt (Replace import_line []) two_imports = Ok r /\
    exec_stmt (Replace import_line [])
      (plain_text ++ import_line ++ two_imports)
    = Ok (plain_text ++ [] ++ r).
Proof.
  assert (H : In (10, Replace import_line []) script) by (left; reflexivity).
  assert (F : find import_line (plain_text ++ import_line)
              = Some (length plain_text)) by (vm_compute; reflexivity).
  split; [exact H|]. split; [exact F|].
  exact (replace_first_then_rest 10 import_line [] plain_text two_imports H F).
Defined.

(** ** The single-line log rules (lines 14-17, 19-21) *)

Lemma one_line_cons (c : char) (m : str) :
  one_line (c :: m) = true -> chr_eqb c NL = false /\ one_line m = true.
Proof.
  unfold one_line. cbn [forallb]. intros H.
  apply andb_true_iff in H as [H1 H2]. apply negb_true_iff in H1. auto.
Qed.

(** The terminator cannot begin inside a text without newline. *)
Lemma call_end_not_early (m t : str) :
  m <> [] -> one_line m = true ->
  starts_with call_end (m ++ call_end ++ t) = false.
Proof.
  intros Hne Hm. change call_end with [41; 59; 10]%N.
  destruct m as [|c1 [|c2 [|c3 m]]]; [congruence| | |].
  - cbn [app starts_with]. destruct (chr_eqb 41%N c1); reflexivity.
  - cbn [app starts_with].
    destruct (chr_eqb 41%N c1); [|reflexivity].
    destruct (chr_eqb 59%N c2); reflexivity.
  - apply one_line_cons in Hm as [_ Hm].
    apply one_line_cons in Hm as [_ Hm].
    apply one_line_cons in Hm as [H3 _].
    cbn [app starts_with]. change 10%N with NL.
    rewrite (chr_eqb_sym NL c3), H3.
    destruct (chr_eqb 41%N c1); [|reflexivity].
    destruct (chr_eqb 59%N c2); reflexivity.
Qed.

(** Without DOTALL a lazy [.*?] before the terminator stays on the line. *)
Lemma lazy_line (ban : option nat) (q : pattern) (m t r : str) :
  one_line m = true ->
  match_here ban q t = Some r ->
  match_here ban (MIN_REPEAT ANY :: lits call_end ++ q) (m ++ call_end ++ t)
  = Some r.
Proof.
  intros Hm Hq. induction m as [|c m IH].
  - rewrite match_here_lazy. cbn [app]. now rewrite match_lits, Hq.
  - rewrite match_here_lazy.
    rewrite match_lits_fail
      by (apply call_end_not_early; [discriminate|exact Hm]).
    apply one_line_cons in Hm as [Hc Hm].
    cbn [app atom_match]. rewrite Hc. cbn [negb]. exact (IH Hm).
Qed.

Lemma log_line_removed (pat P a m rest : str) :
  compile pat NOFLAGS = Ok (lits P ++ MIN_REPEAT ANY :: lits call_end ++ []) ->
  find P (a ++ P) = Some (length a) ->
  one_line m = true ->
  exists r,
    exec_stmt (Sub pat [] NOFLAGS) rest = Ok r /\
    exec_stmt (Sub pat [] NOFLAGS) (a ++ P ++ m ++ call_end ++ rest)
    = Ok (a ++ r).
Proof.
  intros Hc Ha Hm. start_sub Hc.
  rewrite scan_to_literal by exact Ha. f_equal.
  apply (sub_scan_replace _ [] _ rest).
  - rewrite match_lits. apply lazy_line; [exact Hm|reflexivity].
  - unfold call_end. shorter.
Qed.

Ltac find_in := first [left; reflexivity | right; find_in].

(** X6: each of the seven single-line log rules removes, from the first
    occurrence of its prefix, the rest of that line when the line ends in
    [");"]: the prefix, any text without a newline, and the terminator;
    the text after it is rewritten on its own. *)
Theorem single_line_log_removed (line : nat) (P : str) :
  In (line, P) log_prefixes ->
  exists pat,
    In (line, Sub pat [] NOFLAGS) rule2 /\
    forall a m rest : str,
      find P (a ++ P) = Some (length a) ->
      one_line m = true ->
      exists r,
        exec_stmt (Sub pat [] NOFLAGS) rest = Ok r /\
        exec_stmt (Sub pat [] NOFLAGS) (a ++ P ++ m ++ call_end ++ rest)
        = Ok (a ++ r).
Proof.
  intros Hin. unfold log_prefixes in Hin. cbn [In] in Hin.
  repeat (destruct Hin as [Hin|Hin];
          [injection Hin as <- <-; eexists; split;
           [unfold rule2; find_in
           |intros a m rest; apply log_line_removed; vm_compute; reflexivity]
          |]).
  contradiction.
Qed.

Lemma single_line_log_removed_witness :
  In (17, codes "console.log('Game time from database:',") log_prefixes /\
  exists pat,
    In (17, Sub pat [] NOFLAGS) rule2 /\
    exists r,
      exec_stmt (Sub pat [] NOFLAGS) plain_text = Ok r /\
      exec_stmt (Sub pat [] NOFLAGS)
        (plain_text ++ codes "console.log('Game time from database:',"
         ++ codes " t" ++ call_end ++ plain_text)
      = Ok (plain_text ++ r).
Proof.
  assert (H : In (17, codes "console.log('Game time from database:',")
                log_prefixes) by (unfold log_prefixes; find_in).
  split; [exact H|].
  destruct (single_line_log_removed 17 _ H) as (pat & Hin & Hrule).
  exists pat. split; [exact Hin|].
  apply Hrule; vm_compute; reflexivity.
Defined.

(** A text without newline that begins a text begins its first line. *)
Lemma starts_with_first_line (P u rest : str) :
  one_line P = true ->
  starts_with P (u ++ NL :: rest) = true -> starts_with P u = true.
Proof.
  revert u; induction P as [|a P IH]; intros u HP H; [reflexivity|].
  apply one_line_cons in HP as [Ha HP].
  destruct u as [|b u]; cbn [app starts_with] in *.
  - rewrite Ha in H. discriminate.
  - apply andb_true_iff in H as [H1 H2].
    now rewrite H1, (IH u HP H2).
Qed.

(** [re.sub] copies the rest of a line on which the literal text its
    pattern begins with does not occur. *)
Lemma scan_line (P : str) (q : pattern) (repl u rest : str) :
  P <> [] -> one_line P = true ->
  occurs P u = false ->
  sub_scan (lits P ++ q) repl 0 (u ++ NL :: rest)
  = u ++ NL :: sub_scan (lits P ++ q) repl 0 rest.
Proof.
  intros Hne HP. induction u as [|c u IH]; intros Hu.
  - cbn [app]. rewrite sub_scan_miss; [reflexivity|].
    apply match_lits_fail.
    destruct P as [|a P]; [congruence|].
    apply one_line_cons in HP as [Ha _].
    cbn [starts_with]. now rewrite Ha.
  - cbn [occurs] in Hu. apply orb_false_iff in Hu as [H1 H2].
    cbn [app]. rewrite sub_scan_miss.
    + now rewrite (IH H2).
    + apply match_lits_fail.
      destruct (starts_with P (c :: u ++ NL :: rest)) eqn:E; [|reflexivity].
      change (c :: u ++ NL :: rest) with ((c :: u) ++ NL :: rest) in E.
      apply (starts_with_first_line P (c :: u) rest HP) in E. congruence.
Qed.

(** Without DOTALL the lazy [.*?] finds no terminator on a line that does
    not end in one. *)
Lemma lazy_line_fail (ban : option nat) (q : pattern) (m rest : str) :
  one_line m = true ->
  occurs call_end (m ++ [NL]) = false ->
  match_here ban (MIN_REPEAT ANY :: lits call_end ++ q) (m ++ NL :: rest)
  = None.
Proof.
  intros Hm Ho. induction m as [|c m IH].
  - rewrite match_here_lazy. cbn [app].
    rewrite match_lits_fail by reflexivity.
    cbn [atom_match]. now rewrite chr_eqb_refl.
  - apply one_line_cons in Hm as [Hc Hm].
    cbn [app occurs] in Ho. apply orb_false_iff in Ho as [H1 H2].
    rewrite match_here_lazy. cbn [app]. rewrite match_lits_fail.
    + cbn [atom_match]. rewrite Hc. cbn [negb]. exact (IH Hm H2).
    + destruct m as [|c2 m].
      * change call_end with [41; 59; 10]%N. cbn [app starts_with].
        destruct (chr_eqb 41%N c); reflexivity.
      * assert (E : c :: c2 :: m ++ NL :: rest
                    = (c :: c2 :: m ++ [NL]) ++ rest)
          by (cbn [app]; now rewrite <- app_assoc).
        cbn [app]. rewrite E.
        apply starts_with_longer; [exact H1|].
        unfold call_end. cbn [app length codes]. rewrite length_app.
        cbn [length]. lia.
Qed.

Lemma log_line_kept (pat P a m rest : str) :
  compile pat NOFLAGS = Ok (lits P ++ MIN_REPEAT ANY :: lits call_end ++ []) ->
  P <> [] -> one_line P = true ->
  find P (a ++ P) = Some (length a) ->
  one_line m = true ->
  occurs call_end (m ++ [NL]) = false ->
  occurs P (tl (P ++ m)) = false ->
  exists r,
    exec_stmt (Sub pat [] NOFLAGS) rest = Ok r /\
    exec_stmt (Sub pat [] NOFLAGS) (a ++ P ++ m ++ NL :: rest)
    = Ok (a ++ P ++ m ++ NL :: r).
Proof.
  intros Hc Hne HP Ha Hm Hend Hagain. start_sub Hc.
  rewrite scan_to_literal by exact Ha. f_equal.
  destruct P as [|p0 P]; [congruence|].
  cbn [app tl] in *. rewrite sub_scan_miss.
  - f_equal.
    change (ONE (LITERAL p0) :: lits P ++ MIN_REPEAT ANY :: lits call_end ++ [])
      with (lits (p0 :: P) ++ MIN_REPEAT ANY :: lits call_end ++ []).
    rewrite app_assoc. rewrite scan_line; [|discriminate|exact HP|exact Hagain].
    now rewrite <- app_assoc.
  - change (p0 :: P ++ m ++ NL :: rest) with ((p0 :: P) ++ m ++ NL :: rest).
    change (ONE (LITERAL p0) :: lits P ++ MIN_REPEAT ANY :: lits call_end ++ [])
      with (lits (p0 :: P) ++ MIN_REPEAT ANY :: lits call_end ++ []).
    rewrite match_lits. now apply lazy_line_fail.
Qed.

(** X7: a single-line log rule leaves a log call alone when the line that
    holds its prefix does not end in [");"] (a call written over several
    lines): that line is copied as it is, and the text after it is
    rewritten on its own. *)
Theorem multi_line_log_kept (line : nat) (P : str) :
  In (line, P) log_prefixes ->
  exists pat,
    In (line, Sub pat [] NOFLAGS) rule2 /\
    forall a m rest : str,
      find P (a ++ P) = Some (length a) ->
      one_line m = true ->
      occurs call_end (m ++ [NL]) = false ->
      occurs P (tl (P ++ m)) = false ->
      exists r,
        exec_stmt (Sub pat [] NOFLAGS) rest = Ok r /\
        exec_stmt (Sub pat [] NOFLAGS) (a ++ P ++ m ++ NL :: rest)
        = Ok (a ++ P ++ m ++ NL :: r).
Proof.
  intros Hin. unfold log_prefixes in Hin. cbn [In] in Hin.
  repeat (destruct Hin as [Hin|Hin];
          [injection Hin as <- <-; eexists; split;
           [unfold rule2; find_in
           |intros a m rest; apply log_line_kept;
            first [discriminate | vm_compute; reflexivity]]
          |]).
  contradiction.
Qed.

Lemma multi_line_log_kept_witness :
  let P := codes "console.log('Game time from database:'," in
  let m := codes " {" in
  let rest := codes "  t" ++ NL :: codes "}" ++ call_end in
  In (17, P) log_prefixes /\
  find P (plain_text ++ P) = Some (length plain_text) /\
  one_line m = true /\
  occurs call_end (m ++ [NL]) = false /\
  occurs P (tl (P ++ m)) = false /\
  exists pat,
    In (17, Sub pat [] NOFLAGS) rule2 /\
    exec_stmt (Sub pat [] NOFLAGS) (plain_text ++ P ++ m ++ NL :: rest)
    = Ok (plain_text ++ P ++ m ++ NL :: rest).
Proof.
  cbv zeta.
  assert (H : In (17, codes "console.log('Game time from database:',")
                log_prefixes) by (unfold log_prefixes; find_in).
  split; [exact H|].
  repeat (split; [vm_compute; reflexivity|]).
  destruct (multi_line_log_kept 17 _ H) as (pat & Hin & Hrule).
  exists pat. split; [exact Hin|].
  destruct (Hrule plain_text (codes " {")
              (codes "  t" ++ NL :: codes "}" ++ call_end))
    as (r & Er & E); [vm_compute; reflexivity ..|].
  assert (Hr : exec_stmt (Sub pat [] NOFLAGS)
                 (codes "  t" ++ NL :: codes "}" ++ call_end)
               = Ok (codes "  t" ++ NL :: codes "}" ++ call_end)).
  { unfold rule2 in Hin. cbn [In] in Hin.
    repeat (destruct Hin as [Hin|Hin];
            [try discriminate Hin; injection Hin as <-;
             vm_compute; reflexivity|]).
    contradiction. }
  rewrite Hr in Er. injection Er as <-. exact E.
Defined.

(** ** Line 67 *)

Lemma anything_matches (c : char) : atom_match ANYTHING c = true.
Proof. cbn. destruct (is_space c); reflexivity. Qed.

(** A lazy repeat of an item that matches every character goes to the
    first occurrence of the literal text after it. *)
Lemma lazy_to_literal_all (ban : option nat) (a : atom) (T : str)
  (q : pattern) (m t r : str) :
  (forall c, atom_match a c = true) ->
  find T (m ++ T) = Some (length m) ->
  match_here ban q t = Some r ->
  match_here ban (MIN_REPEAT a :: lits T ++ q) (m ++ T ++ t) = Some r.
Proof.
  intros Hall Hf Hq. induction m as [|c m IH].
  - rewrite match_here_lazy. cbn [app]. now rewrite match_lits, Hq.
  - cbn [app length] in Hf. apply find_later in Hf as [H1 H2].
    rewrite match_here_lazy.
    change ((c :: m) ++ T ++ t) with (c :: m ++ T ++ t).
    rewrite match_lits_fail.
    + rewrite Hall. exact (IH H2).
    + change (c :: m ++ T ++ t) with ((c :: m) ++ T ++ t).
      rewrite app_assoc. apply starts_with_longer; [exact H1|].
      cbn [app length]. rewrite length_app. lia.
Qed.

(** X8: line 67 has no DOTALL flag, yet its [[\s\S]*?] crosses line
    breaks: the rule removes the text from the first occurrence of
    [const pageTitle = visiblePicks.length] to the first
    ["Gary's Picks";] with its newline after it, over any number of
    lines; the text after it is rewritten on its own. *)
Theorem page_title_removed (st : stmt) (a m rest : str) :
  In (67, st) rule8 ->
  find title_prefix (a ++ title_prefix) = Some (length a) ->
  find title_end (m ++ title_end) = Some (length m) ->
  exists r,
    exec_stmt st rest = Ok r /\
    exec_stmt st (a ++ title_prefix ++ m ++ title_end ++ rest) = Ok (a ++ r).
Proof.
  intros Hin Ha Hm. destruct Hin as [Hin|[]]. injection Hin as <-.
  match goal with
  | |- context [exec_stmt (Sub ?p _ _) rest] =>
      assert (Hc : compile p NOFLAGS
                   = Ok (lits title_prefix ++ MIN_REPEAT ANYTHING ::
                         lits title_end ++ []))
        by (vm_compute; reflexivity)
  end.
  start_sub Hc.
  rewrite scan_to_literal by exact Ha. f_equal.
  apply (sub_scan_replace _ [] _ rest).
  - rewrite match_lits.
    apply lazy_to_literal_all; [exact anything_matches|exact Hm|reflexivity].
  - unfold title_end. shorter.
Qed.

Lemma page_title_removed_witness :
  let m := codes " > 0" ++ NL :: codes "  ? 'Picks'" ++ NL :: codes "  : " in
  exists st,
    In (67, st) rule8 /\
    find title_prefix (plain_text ++ title_prefix) = Some (length plain_text) /\
    find title_end (m ++ title_end) = Some (length m) /\
    exec_stmt st (plain_text ++ title_prefix ++ m ++ title_end ++ plain_text)
    = Ok (plain_text ++ plain_text).
Proof.
  cbv zeta. eexists.
  split; [left; reflexivity|].
  assert (F1 : find title_prefix (plain_text ++ title_prefix)
               = Some (length plain_text)) by (vm_compute; reflexivity).
  assert (F2 : find title_end
                 ((codes " > 0" ++ NL :: codes "  ? 'Picks'" ++ NL ::
                   codes "  : ") ++ title_end)
               = Some (length (codes " > 0" ++ NL :: codes "  ? 'Picks'"
                               ++ NL :: codes "  : ")))
    by (vm_compute; reflexivity).
  split; [exact F1|]. split; [exact F2|].
  destruct (page_title_removed _ plain_text _ plain_text
              (or_introl eq_refl) F1 F2) as (r & Er & E).
  vm_compute in Er. injection Er as <-. exact E.
Defined.

(** ** Line 18 needs two terminators *)

Lemma lits_sound (ban : option nat) (L : str) (q : pattern) (u r : str) :
  match_here ban (lits L ++ q) u = Some r ->
  exists u', u = L ++ u' /\ match_here ban q u' = Some r.
Proof.
  revert u; induction L as [|a L IH]; intros u H.
  - now exists u.
  - rewrite lits_cons, match_here_one in H.
    destruct u as [|c u]; [discriminate|].
    cbn [atom_match] in H. destruct (chr_eqb c a) eqn:E; [|discriminate].
    apply chr_eqb_eq in E. subst c.
    destruct (IH u H) as (u' & -> & Hq). now exists u'.
Qed.

(** What a lazy repeat before a literal text matched ends where that text
    occurs. *)
Lemma lazy_sound (ban : option nat) (a : atom) (T : str) (q : pattern)
  (u r : str) :
  match_here ban (MIN_REPEAT a :: lits T ++ q) u = Some r ->
  exists x u', u = x ++ T ++ u' /\ match_here ban q u' = Some r.
Proof.
  induction u as [|c u IH]; intros H; rewrite match_here_lazy in H.
  - destruct (match_here ban (lits T ++ q) []) eqn:E; [|discriminate].
    injection H as ->. destruct (lits_sound _ _ _ _ _ E) as (u' & Hu & Hq).
    exists [], u'. auto.
  - destruct (match_here ban (lits T ++ q) (c :: u)) eqn:E.
    + injection H as ->. destruct (lits_sound _ _ _ _ _ E) as (u' & Hu & Hq).
      exists [], u'. auto.
    + destruct (atom_match a c); [|discriminate].
      destruct (IH H) as (x & u' & -> & Hq).
      exists (c :: x), u'. auto.
Qed.

Lemma found_sound (p : pattern) (s : str) :
  found p s = true ->
  exists w u r, s = w ++ u /\ match_here None p u = Some r.
Proof.
  induction s as [|c s IH]; cbn [found]; intros H.
  - destruct (match_here None p []) as [r|] eqn:E; [|discriminate].
    now exists [], [], r.
  - destruct (match_here None p (c :: s)) as [r|] eqn:E.
    + now exists [], (c :: s), r.
    + destruct (IH H) as (w & u & r & -> & Hm).
      now exists (c :: w), u, r.
Qed.

Lemma occurs_mid (T X Y : str) : occurs T (X ++ T ++ Y) = true.
Proof.
  induction X as [|c X IH].
  - cbn [app]. destruct (T ++ Y) eqn:E; cbn [occurs];
      rewrite <- E, starts_with_app; reflexivity.
  - cbn [app occurs]. rewrite IH. apply orb_true_r.
Qed.

Lemma find_before (T A rest : str) :
  exists k, find T (A ++ T ++ rest) = Some k /\ k <= length A.
Proof.
  induction A as [|c A IH].
  - exists 0. split; [|cbn; lia]. cbn [app].
    destruct (T ++ rest) eqn:E; cbn [find];
      rewrite <- E, starts_with_app; reflexivity.
  - destruct IH as (k & Hk & Hle). cbn [app find].
    destruct (starts_with T (c :: A ++ T ++ rest)).
    + exists 0. split; [reflexivity|lia].
    + exists (S k). rewrite Hk. split; [reflexivity|cbn [length]; lia].
Qed.

Lemma two_occurrences (T A B C : str) :
  fewer_than_two T (A ++ T ++ B ++ T ++ C) = false.
Proof.
  unfold fewer_than_two.
  destruct (find_before T A (B ++ T ++ C)) as (k & -> & Hle).
  apply negb_false_iff.
  replace (A ++ T ++ B ++ T ++ C) with ((A ++ T) ++ B ++ T ++ C)
    by (now rewrite <- app_assoc).
  rewrite skipn_app.
  replace (k + length T - length (A ++ T)) with 0
    by (rewrite length_app; lia).
  cbn [skipn]. rewrite app_assoc. apply occurs_mid.
Qed.

(** X9: line 18 changes nothing in a buffer that holds fewer than two
    [");"] followed by a newline: a time-field log with a single
    terminator after it stays in place. *)
Theorem time_rule_needs_two_ends (s : str) :
  fewer_than_two call_end s = true ->
  exec_stmt stmt18 s = Ok s.
Proof.
  intros H. unfold stmt18. cbn [exec_stmt]. unfold Re.sub.
  rewrite compile_stmt18. cbn [bind]. rewrite template_nil. cbn [bind].
  f_equal. apply sub_scan_absent.
  match goal with |- found ?p s = false => destruct (found p s) eqn:F end;
    [|reflexivity].
  apply found_sound in F as (w & u & r & -> & Hm).
  apply lits_sound in Hm as (u1 & -> & Hm).
  apply lazy_sound in Hm as (x & u2 & -> & Hm).
  apply lazy_sound in Hm as (y & u3 & -> & _).
  replace (w ++ time_prefix ++ x ++ call_end ++ y ++ call_end ++ u3)
    with ((w ++ time_prefix ++ x) ++ call_end ++ y ++ call_end ++ u3) in H
    by (now rewrite <- !app_assoc).
  rewrite two_occurrences in H. discriminate.
Qed.

Lemma time_rule_needs_two_ends_witness :
  let s := time_prefix ++ codes " pick.time" ++ call_end ++ plain_text in
  fewer_than_two call_end s = true /\ exec_stmt stmt18 s = Ok s.
Proof.
  cbv zeta.
  assert (H : fewer_than_two call_end
                (time_prefix ++ codes " pick.time" ++ call_end ++ plain_text)
              = true) by (vm_compute; reflexivity).
  split; [exact H|]. exact (time_rule_needs_two_ends _ H).
Defined.
